(** * Shallow embedding of pylot's synchronisation and metric operators

    Modelled sources:
    - [pylot/drivers/carla_lidar_driver_operator.py]
      ([process_point_clouds], [on_watermark]): the release gate;
    - [pylot/perception/detection/detection_decay_operator.py] ([on_data]):
      the decay window;
    - [pylot/prediction/prediction_eval_operator.py] ([on_data],
      [on_watermark], [_calculate_metrics]): the prediction evaluator;
    - [detection_operator_runner.py] (the camera callbacks of [main]).

    Python floats are modelled as rationals [Q] (exact arithmetic); Python
    exceptions as the constructors of [PyError]. *)

From Stdlib Require Import List ZArith QArith Qabs Qround Sorted Bool Lia.
From Stdlib Require String.
Import ListNotations.

(** ** Python exceptions and the error monad *)

Inductive PyError :=
| IndexError          (* popleft / [l[i]] on a too short deque or list *)
| KeyError            (* [d[k]] with [k] absent *)
| ValueError          (* explicit [raise ValueError(...)] *)
| ZeroDivisionError   (* [x /= 0] *)
| AssertionError.     (* failed [assert] *)

Inductive result (A : Type) :=
| Ok (a : A)
| Err (e : PyError).
Arguments Ok {A} a.
Arguments Err {A} e.

Definition bind {A B} (r : result A) (k : A -> result B) : result B :=
  match r with
  | Ok a => k a
  | Err e => Err e
  end.

Notation "x <- r ;; k" := (bind r (fun x => k))
  (at level 61, r at next level, right associativity).

(** ** erdos timestamps

    An [erdos.Timestamp] is either the distinguished top timestamp or a
    list of integer coordinates. *)

Inductive Timestamp :=
| TsTop
| TsCoords (coordinates : list Z).

Definition ts_eqb (a b : Timestamp) : bool :=
  match a, b with
  | TsTop, TsTop => true
  | TsCoords c1, TsCoords c2 => if list_eq_dec Z.eq_dec c1 c2 then true else false
  | _, _ => false
  end.

Lemma ts_eqb_refl t : ts_eqb t t = true.
Proof.
  destruct t as [|c]; simpl; [reflexivity|].
  destruct (list_eq_dec Z.eq_dec c c); [reflexivity|congruence].
Qed.

Lemma ts_eqb_eq a b : ts_eqb a b = true <-> a = b.
Proof.
  split.
  - destruct a as [|c1], b as [|c2]; simpl; try congruence.
    destruct (list_eq_dec Z.eq_dec c1 c2); congruence.
  - intros ->. apply ts_eqb_refl.
Qed.

(** Python's [int(x)] on a float: truncation toward zero. *)
Definition py_int (q : Q) : Z := Z.quot (Qnum q) (Zpos (Qden q)).

(** ** Python dictionaries keyed by timestamps

    A dict is an association list without duplicate keys; assignment
    replaces the value of an existing key in place and otherwise adds the
    key, [del] removes it. *)

Module TsDict.
Section TsDict.
Variable V : Type.

Definition t := list (Timestamp * V).

Fixpoint lookup (k : Timestamp) (d : t) : option V :=
  match d with
  | [] => None
  | (k', v) :: d' => if ts_eqb k k' then Some v else lookup k d'
  end.

Fixpoint assign (k : Timestamp) (v : V) (d : t) : t :=
  match d with
  | [] => [(k, v)]
  | (k', v') :: d' =>
      if ts_eqb k k' then (k', v) :: d' else (k', v') :: assign k v d'
  end.

Definition delete (k : Timestamp) (d : t) : t :=
  filter (fun kv => negb (ts_eqb k (fst kv))) d.

Lemma lookup_assign_eq k v d : lookup k (assign k v d) = Some v.
Proof.
  induction d as [|[k' v'] d IH]; simpl.
  - rewrite ts_eqb_refl. reflexivity.
  - destruct (ts_eqb k k') eqn:E; simpl; rewrite E; [reflexivity|exact IH].
Qed.

Lemma lookup_delete_eq k d : lookup k (delete k d) = None.
Proof.
  induction d as [|[k' v'] d IH]; simpl; [reflexivity|].
  destruct (ts_eqb k k') eqn:E; simpl; [exact IH|].
  rewrite E. exact IH.
Qed.

End TsDict.
End TsDict.
Arguments TsDict.lookup {V} k d.
Arguments TsDict.assign {V} k v d.
Arguments TsDict.delete {V} k d.

(** ** The LiDAR driver's release gate ([carla_lidar_driver_operator.py]) *)

(** The simulator's point cloud as seen by the callback: its capture time in
    seconds (a float) and its raw point buffer. *)
Record SimulatorPC := {
  pc_timestamp : Q;
  raw_data : list Z
}.

Module Lidar.
Section Lidar.

(** The converted point cloud and the pickled bytes are opaque here. *)
Variable PointCloud Pickled : Type.
(** [PointCloud.from_simulator_point_cloud(simulator_pc, lidar_setup)]. *)
Variable from_simulator_point_cloud : SimulatorPC -> PointCloud.
(** [pickle.dumps(data, protocol=pickle.HIGHEST_PROTOCOL)]. *)
Variable pickle_dumps : PointCloud -> Pickled.

(** The operator's mutable fields [_pickled_messages] and [_release_data]. *)
Record LidarState := {
  pickled_messages : TsDict.t Pickled;
  release_data : bool
}.

Definition init_state : LidarState :=
  {| pickled_messages := []; release_data := false |}.

(** What the operator sends on its two write streams, or the exception it
    raises. *)
Inductive Out :=
| LeftMessage (t : Timestamp) (data : PointCloud)
| LeftSendPickled (t : Timestamp) (p : Pickled)
| LeftWatermark (t : Timestamp)
| RightWatermark (t : Timestamp)
| Raised (e : PyError).

(** [timestamp = erdos.Timestamp(coordinates=[int(simulator_pc.timestamp * 1000)])] *)
Definition pc_key (pc : SimulatorPC) : Timestamp :=
  TsCoords [py_int (pc_timestamp pc * 1000)].

(** [process_point_clouds]: the simulator callback (under [self._lock]). *)
Definition process_point_clouds (st : LidarState) (pc : SimulatorPC)
  : LidarState * list Out :=
  let timestamp := pc_key pc in
  match raw_data pc with
  | [] => (st, [Raised AssertionError])
  | _ :: _ =>
      let data := from_simulator_point_cloud pc in
      if release_data st then
        (st, [LeftMessage timestamp data; LeftWatermark timestamp])
      else
        let pickled_msg := pickle_dumps data in
        ({| pickled_messages :=
              TsDict.assign timestamp pickled_msg (pickled_messages st);
            release_data := release_data st |},
         [RightWatermark timestamp])
  end.

(** [on_watermark]: the release signal. *)
Definition on_watermark (st : LidarState) (t : Timestamp)
  : LidarState * list Out :=
  match t with
  | TsTop =>
      ({| pickled_messages := pickled_messages st; release_data := true |}, [])
  | TsCoords _ =>
      match TsDict.lookup t (pickled_messages st) with
      | None => (st, [Raised KeyError])
      | Some p =>
          ({| pickled_messages := TsDict.delete t (pickled_messages st);
              release_data := release_data st |},
           [LeftSendPickled t p; LeftWatermark t])
      end
  end.

Inductive Op :=
| Callback (pc : SimulatorPC)
| Watermark (t : Timestamp).

Definition step (st : LidarState) (op : Op) : LidarState * list Out :=
  match op with
  | Callback pc => process_point_clouds st pc
  | Watermark t => on_watermark st t
  end.

(** A sequential run; the outputs of all steps are concatenated. *)
Fixpoint run (st : LidarState) (ops : list Op) : LidarState * list Out :=
  match ops with
  | [] => (st, [])
  | op :: ops' =>
      let (st1, o1) := step st op in
      let (st2, o2) := run st1 ops' in
      (st2, o1 ++ o2)
  end.

Lemma run_app st ops1 ops2 :
  fst (run st (ops1 ++ ops2)) = fst (run (fst (run st ops1)) ops2).
Proof.
  revert st; induction ops1 as [|op ops1 IH]; intros st; simpl; [reflexivity|].
  destruct (step st op) as [s1 o1].
  specialize (IH s1).
  destruct (run s1 (ops1 ++ ops2)) as [s2 o2] eqn:E1.
  destruct (run s1 ops1) as [s3 o3] eqn:E2. simpl in *. exact IH.
Qed.

Lemma step_keeps_release st op :
  release_data st = true -> release_data (fst (step st op)) = true.
Proof.
  intros H; destruct op as [pc|[|c]]; simpl.
  - unfold process_point_clouds.
    destruct (raw_data pc); simpl; [exact H|]. rewrite H. exact H.
  - reflexivity.
  - destruct (TsDict.lookup _ _); simpl; exact H.
Qed.

Lemma run_keeps_release st ops :
  release_data st = true -> release_data (fst (run st ops)) = true.
Proof.
  revert st; induction ops as [|op ops IH]; intros st H; simpl; [exact H|].
  pose proof (step_keeps_release st op H) as H1.
  destruct (step st op) as [s1 o1]. simpl in H1.
  specialize (IH s1 H1). destruct (run s1 ops) as [s2 o2]. exact IH.
Qed.

End Lidar.
End Lidar.

(** ** The detection-decay evaluator ([detection_decay_operator.py]) *)

(** Python's [sum(xs)]: [0] plus the elements from left to right. *)
Definition py_sum (xs : list Q) : Q := fold_left Qplus xs 0.

Module Decay.
Section Decay.

Variable Obstacle BBox : Type.
(** [obstacle.is_person()] and [obstacle.bounding_box]. *)
Variable is_person : Obstacle -> bool.
Variable bounding_box : Obstacle -> BBox.
(** [get_precision_recall_at_iou(bboxes, old_bboxes, iou)] from
    [pylot.perception.detection.utils]; any function. *)
Variable get_precision_recall_at_iou : list BBox -> list BBox -> Q -> Q * Q.
(** [self._flags.decay_max_latency] *)
Variable decay_max_latency : Z.

(** [self._iou_thresholds = [0.1 * i for i in range(1, 10)]] *)
Definition iou_thresholds : list Q :=
  map (fun i => (1 # 10) * inject_Z (Z.of_nat i)) (seq 1 9).

(** [self._ground_bboxes]: a deque of [(game_time, bboxes)], oldest first. *)
Definition Window := list (Z * list BBox).

(** [bboxes = []; for obstacle in data['obstacles']:
       if obstacle.is_person(): bboxes.append(obstacle.bounding_box)] *)
Fixpoint select_person_bboxes (obstacles : list Obstacle) : list BBox :=
  match obstacles with
  | [] => []
  | o :: os =>
      if is_person o then bounding_box o :: select_person_bboxes os
      else select_person_bboxes os
  end.

(** [while len(q) > 0 and game_time - q[0][0] > max_latency: q.popleft()] *)
Fixpoint evict (game_time : Z) (w : Window) : Window :=
  match w with
  | [] => []
  | (old_game_time, old_bboxes) :: w' =>
      if Z.ltb decay_max_latency (game_time - old_game_time)
      then evict game_time w'
      else w
  end.

(** One iteration of the comparison loop for the entry [(old_game_time,
    old_bboxes)]: the average precision over the thresholds. *)
Definition avg_precision (bboxes old_bboxes : list BBox) : Q :=
  let precisions :=
    map (fun iou => fst (get_precision_recall_at_iou bboxes old_bboxes iou))
        iou_thresholds in
  py_sum precisions / inject_Z (Z.of_nat (length precisions)).

(** [for (old_game_time, old_bboxes) in self._ground_bboxes: ...]; each
    sent message carries [(latency, avg_precision)]. *)
Fixpoint compare_loop (game_time : Z) (bboxes : list BBox) (w : Window)
  : list (Z * Q) :=
  match w with
  | [] => []
  | (old_game_time, old_bboxes) :: w' =>
      if (0 <? length bboxes)%nat || (0 <? length old_bboxes)%nat then
        let latency := (game_time - old_game_time)%Z in
        (latency, avg_precision bboxes old_bboxes)
          :: compare_loop game_time bboxes w'
      else compare_loop game_time bboxes w'
  end.

(** [on_data]: returns the new deque and the sent messages.  The top
    timestamp has no coordinates, so the assertion fails for it. *)
Definition on_data (w : Window) (t : Timestamp) (obstacles : list Obstacle)
  : result (Window * list (Z * Q)) :=
  match t with
  | TsCoords [game_time] =>
      let bboxes := select_person_bboxes obstacles in
      let w1 := evict game_time w in
      let sent := compare_loop game_time bboxes w1 in
      Ok (w1 ++ [(game_time, bboxes)], sent)
  | _ => Err AssertionError
  end.

(** A run over messages keyed by single-coordinate timestamps. *)
Fixpoint run (w : Window) (inputs : list (Z * list Obstacle))
  : Window * list (Z * Q) :=
  match inputs with
  | [] => (w, [])
  | (k, obs) :: inputs' =>
      match on_data w (TsCoords [k]) obs with
      | Ok (w1, sent) =>
          let (w2, sent') := run w1 inputs' in (w2, sent ++ sent')
      | Err _ => run w inputs'
      end
  end.

(** *** Helper lemmas *)

Lemma select_person_bboxes_spec obstacles :
  select_person_bboxes obstacles = map bounding_box (filter is_person obstacles).
Proof.
  induction obstacles as [|o os IH]; simpl; [reflexivity|].
  destruct (is_person o); simpl; rewrite IH; reflexivity.
Qed.

Lemma select_person_bboxes_filter obstacles :
  select_person_bboxes (filter is_person obstacles) = select_person_bboxes obstacles.
Proof.
  induction obstacles as [|o os IH]; simpl; [reflexivity|].
  destruct (is_person o) eqn:E; simpl; rewrite ?E, IH; reflexivity.
Qed.

End Decay.
End Decay.

(** ** The prediction evaluator ([prediction_eval_operator.py]) *)

Module Prediction.

Record Location := { loc_x : Q; loc_y : Q; loc_z : Q }.
(** Only the location of a [pylot.utils.Transform] is read here. *)
Record Transform := { location : Location }.
Record Vector2D := { vx : Q; vy : Q }.

(** [Vector2D(transform.location.x, transform.location.y)]: altitude dropped. *)
Definition to_vector2d (t : Transform) : Vector2D :=
  {| vx := loc_x (location t); vy := loc_y (location t) |}.

(** Modelled from the spec: [Vector2D.l1_distance] (pylot.utils, not part of
    the modelled sources), the Manhattan distance of ADE and FDE. *)
Definition l1_distance (a b : Vector2D) : Q :=
  Qabs (vx a - vx b) + Qabs (vy a - vy b).

(** Modelled from the spec: [Vector2D.l2_distance] (pylot.utils, not part of
    the modelled sources), summed into the mean-squared-distance, i.e. the
    squared Euclidean distance. *)
Definition l2_distance (a b : Vector2D) : Q :=
  (vx a - vx b) * (vx a - vx b) + (vy a - vy b) * (vy a - vy b).

(** Python's [l[-idx]] for [idx >= 1]. *)
Definition py_neg_index {A} (l : list A) (idx : nat) : result A :=
  if (1 <=? idx) && (idx <=? length l) then
    match nth_error l (length l - idx) with
    | Some a => Ok a
    | None => Err IndexError
    end
  else Err IndexError.

(** [for idx in range(1, len(predicted_trajectory) + 1):
       l2_distance += predicted_trajectory[-idx].l2_distance(ground_trajectory[-idx])
       l1_distance += predicted_trajectory[-idx].l1_distance(ground_trajectory[-idx])] *)
Fixpoint metric_loop (pt gt : list Vector2D) (idxs : list nat) (acc : Q * Q)
  : result (Q * Q) :=
  match idxs with
  | [] => Ok acc
  | idx :: idxs' =>
      p <- py_neg_index pt idx ;;
      g <- py_neg_index gt idx ;;
      metric_loop pt gt idxs'
        (fst acc + l2_distance p g, snd acc + l1_distance p g)
  end.

(** Python's [x / n] for an integer [n]. *)
Definition py_div (x : Q) (n : nat) : result Q :=
  match n with
  | O => Err ZeroDivisionError
  | _ => Ok (x / inject_Z (Z.of_nat n))
  end.

(** Lines 140-151 of [_calculate_metrics]: the per-obstacle scorer,
    returning [(l2_distance, l1_distance, fde)], i.e. (MSD, ADE, FDE). *)
Definition trajectory_metrics (pt gt : list Vector2D) : result (Q * Q * Q) :=
  acc <- metric_loop pt gt (seq 1 (length pt)) (0, 0) ;;
  l2 <- py_div (fst acc) (length pt) ;;
  l1 <- py_div (snd acc) (length pt) ;;
  p <- py_neg_index pt 1 ;;
  g <- py_neg_index gt 1 ;;
  Ok (l2, l1, l1_distance p g).

Section Eval.

(** Obstacle labels and the predicates [is_vehicle()] / [is_person()]
    (pylot.perception.detection.obstacle, not part of the modelled sources);
    any predicates. *)
Variable Label : Type.
Variable is_vehicle is_person : Label -> bool.

Record ObstaclePrediction := {
  op_id : Z;
  op_label : Label;
  op_predicted_trajectory : list Transform
}.

Record ObstacleTrajectory := {
  ot_id : Z;
  ot_trajectory : list Transform
}.

(** [ground_trajectories_dict]: a dict from obstacle id to trajectory, as an
    association list whose first binding of a key is its value. *)
Definition GroundDict := list (Z * ObstacleTrajectory).

Fixpoint dict_get (k : Z) (d : GroundDict) : result ObstacleTrajectory :=
  match d with
  | [] => Err KeyError
  | (k', v) :: d' => if Z.eqb k k' then Ok v else dict_get k d'
  end.

(** The local counters and sums of [_calculate_metrics]. *)
Record Metrics := {
  vehicle_cnt : nat; vehicle_msd : Q; vehicle_ade : Q; vehicle_fde : Q;
  person_cnt : nat; person_msd : Q; person_ade : Q; person_fde : Q
}.

Definition metrics0 : Metrics :=
  {| vehicle_cnt := 0; vehicle_msd := 0; vehicle_ade := 0; vehicle_fde := 0;
     person_cnt := 0; person_msd := 0; person_ade := 0; person_fde := 0 |}.

Definition incr_vehicle (m : Metrics) : Metrics :=
  {| vehicle_cnt := S (vehicle_cnt m); vehicle_msd := vehicle_msd m;
     vehicle_ade := vehicle_ade m; vehicle_fde := vehicle_fde m;
     person_cnt := person_cnt m; person_msd := person_msd m;
     person_ade := person_ade m; person_fde := person_fde m |}.

Definition incr_person (m : Metrics) : Metrics :=
  {| vehicle_cnt := vehicle_cnt m; vehicle_msd := vehicle_msd m;
     vehicle_ade := vehicle_ade m; vehicle_fde := vehicle_fde m;
     person_cnt := S (person_cnt m); person_msd := person_msd m;
     person_ade := person_ade m; person_fde := person_fde m |}.

Definition add_vehicle (m : Metrics) (msd ade fde : Q) : Metrics :=
  {| vehicle_cnt := vehicle_cnt m; vehicle_msd := vehicle_msd m + msd;
     vehicle_ade := vehicle_ade m + ade; vehicle_fde := vehicle_fde m + fde;
     person_cnt := person_cnt m; person_msd := person_msd m;
     person_ade := person_ade m; person_fde := person_fde m |}.

Definition add_person (m : Metrics) (msd ade fde : Q) : Metrics :=
  {| vehicle_cnt := vehicle_cnt m; vehicle_msd := vehicle_msd m;
     vehicle_ade := vehicle_ade m; vehicle_fde := vehicle_fde m;
     person_cnt := person_cnt m; person_msd := person_msd m + msd;
     person_ade := person_ade m + ade; person_fde := person_fde m + fde |}.

(** The body of [for obstacle_prediction in predictions:]. *)
Definition score_obstacle (ground_trajectories : GroundDict) (m : Metrics)
    (op : ObstaclePrediction) : result Metrics :=
  let predicted_trajectory := map to_vector2d (op_predicted_trajectory op) in
  gtr <- dict_get (op_id op) ground_trajectories ;;
  let ground_trajectory := map to_vector2d (ot_trajectory gtr) in
  m1 <- (if is_vehicle (op_label op) then Ok (incr_vehicle m)
         else if is_person (op_label op) then Ok (incr_person m)
         else Err ValueError) ;;
  r <- trajectory_metrics predicted_trajectory ground_trajectory ;;
  let '(l2, l1, fde) := r in
  if is_vehicle (op_label op) then Ok (add_vehicle m1 l2 l1 fde)
  else if is_person (op_label op) then Ok (add_person m1 l2 l1 fde)
  else Err ValueError.

Fixpoint score_obstacles (ground_trajectories : GroundDict) (m : Metrics)
    (predictions : list ObstaclePrediction) : result Metrics :=
  match predictions with
  | [] => Ok m
  | op :: ops =>
      m1 <- score_obstacle ground_trajectories m op ;;
      score_obstacles ground_trajectories m1 ops
  end.

(** The CSV rows logged by [_calculate_metrics]. *)
Inductive Scope := AllActors | Persons | Vehicles.
Inductive MetricName := MSD | ADE | FDE.
Record Row := { row_scope : Scope; row_metric : MetricName; row_value : Q }.

Definition rows_of (sc : Scope) (cnt : nat) (msd ade fde : Q) : list Row :=
  match cnt with
  | O => []
  | _ =>
      let n := inject_Z (Z.of_nat cnt) in
      [ {| row_scope := sc; row_metric := MSD; row_value := msd / n |};
        {| row_scope := sc; row_metric := ADE; row_value := ade / n |};
        {| row_scope := sc; row_metric := FDE; row_value := fde / n |} ]
  end.

(** [_calculate_metrics(timestamp, ground_trajectories, predictions)]:
    the final counters and the logged rows. *)
Definition calculate_metrics (ground_trajectories : GroundDict)
    (predictions : list ObstaclePrediction) : result (Metrics * list Row) :=
  m <- score_obstacles ground_trajectories metrics0 predictions ;;
  let actor_cnt := (person_cnt m + vehicle_cnt m)%nat in
  Ok (m,
      rows_of AllActors actor_cnt (person_msd m + vehicle_msd m)
        (person_ade m + vehicle_ade m) (person_fde m + vehicle_fde m)
      ++ rows_of Persons (person_cnt m) (person_msd m) (person_ade m)
           (person_fde m)
      ++ rows_of Vehicles (vehicle_cnt m) (vehicle_msd m) (vehicle_ade m)
           (vehicle_fde m)).

End Eval.

Arguments op_id {Label} o.
Arguments op_label {Label} o.
Arguments op_predicted_trajectory {Label} o.
Arguments Build_ObstaclePrediction {Label} op_id op_label op_predicted_trajectory.
Arguments score_obstacle {Label} is_vehicle is_person ground_trajectories m op.
Arguments score_obstacles {Label} is_vehicle is_person ground_trajectories m predictions.
Arguments calculate_metrics {Label} is_vehicle is_person ground_trajectories predictions.

(** *** The operator: buffers and [on_watermark] *)

Section Operator.

Variable Label : Type.
Variable is_vehicle is_person : Label -> bool.
Variable Pose : Type.
(** [obstacle_prediction.to_world_coordinates(pose.transform)] and
    [obstacle_trajectory.to_world_coordinates(pose.transform)]. *)
Variable prediction_to_world :
  Pose -> ObstaclePrediction Label -> ObstaclePrediction Label.
Variable trajectory_to_world : Pose -> ObstacleTrajectory -> ObstacleTrajectory.
(** [self._flags.prediction_num_future_steps] *)
Variable prediction_num_future_steps : nat.

Definition Batch := list (ObstaclePrediction Label).

(** [_prediction_msgs], [_tracking_msgs], [_pose_msgs] and [_predictions],
    each a deque, oldest first. *)
Record EvalState := {
  prediction_msgs : list Batch;
  tracking_msgs : list (list ObstacleTrajectory);
  pose_msgs : list Pose;
  predictions : list Batch
}.

Definition eval_init : EvalState :=
  {| prediction_msgs := []; tracking_msgs := []; pose_msgs := [];
     predictions := [] |}.

(** [deque(maxlen=n).append(b)]: a full deque drops its oldest element. *)
Definition deque_append {A} (maxlen : nat) (q : list A) (b : A) : list A :=
  match maxlen with
  | O => q
  | _ => if Nat.ltb (length q) maxlen then q ++ [b] else tl q ++ [b]
  end.

(** The three kinds of data dispatched by [on_data]. *)
Inductive Data :=
| DPose (p : Pose)
| DTracking (obstacle_trajectories : list ObstacleTrajectory)
| DPrediction (b : Batch).

Definition on_data (st : EvalState) (d : Data) : EvalState :=
  match d with
  | DPose p =>
      {| prediction_msgs := prediction_msgs st; tracking_msgs := tracking_msgs st;
         pose_msgs := pose_msgs st ++ [p]; predictions := predictions st |}
  | DTracking t =>
      {| prediction_msgs := prediction_msgs st; tracking_msgs := tracking_msgs st ++ [t];
         pose_msgs := pose_msgs st; predictions := predictions st |}
  | DPrediction b =>
      {| prediction_msgs := prediction_msgs st ++ [b]; tracking_msgs := tracking_msgs st;
         pose_msgs := pose_msgs st; predictions := predictions st |}
  end.

(** A scoring pass ([_calculate_metrics] returned) or a raised exception. *)
Inductive EvalOut :=
| Scored (t : Timestamp) (m : Metrics) (rows : list Row)
| EvRaised (e : PyError).

(** [ground_trajectories_dict[obstacle_trajectory.id] = obstacle_trajectory]
    for each trajectory, after its conversion to world coordinates. *)
Definition build_ground (pose : Pose) (tracking : list ObstacleTrajectory)
  : GroundDict :=
  fold_left (fun d ot => let ot' := trajectory_to_world pose ot in (ot_id ot', ot') :: d)
    tracking [].

(** [on_watermark]: the three [popleft]s (each mutates before the next can
    raise), the scoring pass once [len(self._predictions) == W], then the
    append of the converted prediction. *)
Definition on_watermark (st : EvalState) (t : Timestamp) : EvalState * list EvalOut :=
  match t with
  | TsTop => (st, [])
  | TsCoords _ =>
  match tracking_msgs st with
  | [] => (st, [EvRaised IndexError])
  | tracking_msg :: tms =>
  match prediction_msgs st with
  | [] =>
      ({| prediction_msgs := []; tracking_msgs := tms; pose_msgs := pose_msgs st;
          predictions := predictions st |}, [EvRaised IndexError])
  | prediction_msg :: pms =>
  match pose_msgs st with
  | [] =>
      ({| prediction_msgs := pms; tracking_msgs := tms; pose_msgs := [];
          predictions := predictions st |}, [EvRaised IndexError])
  | pose :: poses =>
      let st3 := {| prediction_msgs := pms; tracking_msgs := tms; pose_msgs := poses;
                    predictions := predictions st |} in
      let scored : result (list EvalOut) :=
        if Nat.eqb (length (predictions st)) prediction_num_future_steps then
          match predictions st with
          | [] => Err IndexError
          | oldest :: _ =>
              r <- calculate_metrics is_vehicle is_person
                     (build_ground pose tracking_msg) oldest ;;
              Ok [Scored t (fst r) (snd r)]
          end
        else Ok [] in
      match scored with
      | Err e => (st3, [EvRaised e])
      | Ok outs =>
          ({| prediction_msgs := pms; tracking_msgs := tms; pose_msgs := poses;
              predictions :=
                deque_append prediction_num_future_steps (predictions st)
                  (map (prediction_to_world pose) prediction_msg) |}, outs)
      end
  end end end end.

Inductive EvalOp :=
| OpData (d : Data)
| OpWatermark (t : Timestamp).

Definition eval_step (st : EvalState) (op : EvalOp) : EvalState * list EvalOut :=
  match op with
  | OpData d => (on_data st d, [])
  | OpWatermark t => on_watermark st t
  end.

Fixpoint eval_run (st : EvalState) (ops : list EvalOp) : EvalState * list EvalOut :=
  match ops with
  | [] => (st, [])
  | op :: ops' =>
      let (st1, o1) := eval_step st op in
      let (st2, o2) := eval_run st1 ops' in
      (st2, o1 ++ o2)
  end.

(** Observations over a run. *)
Definition is_scored (o : EvalOut) : bool :=
  match o with Scored _ _ _ => true | EvRaised _ => false end.
Definition is_raised (o : EvalOut) : bool :=
  match o with Scored _ _ _ => false | EvRaised _ => true end.
Definition count_scored (outs : list EvalOut) : nat := length (filter is_scored outs).
Definition no_raised (outs : list EvalOut) : bool := negb (existsb is_raised outs).
Definition is_nontop_watermark (op : EvalOp) : bool :=
  match op with OpWatermark (TsCoords _) => true | _ => false end.
Definition nontop_watermarks (ops : list EvalOp) : nat :=
  length (filter is_nontop_watermark ops).

End Operator.

Arguments prediction_msgs {Label Pose} e.
Arguments tracking_msgs {Label Pose} e.
Arguments pose_msgs {Label Pose} e.
Arguments predictions {Label Pose} e.
Arguments eval_init {Label Pose}.
Arguments DPose {Label Pose} p.
Arguments DTracking {Label Pose} obstacle_trajectories.
Arguments DPrediction {Label Pose} b.
Arguments OpData {Label Pose} d.
Arguments OpWatermark {Label Pose} t.
Arguments eval_step {Label} is_vehicle is_person {Pose} prediction_to_world
  trajectory_to_world prediction_num_future_steps st op.
Arguments eval_run {Label} is_vehicle is_person {Pose} prediction_to_world
  trajectory_to_world prediction_num_future_steps st ops.
Arguments is_nontop_watermark {Label Pose} op.
Arguments nontop_watermarks {Label Pose} ops.
End Prediction.

Arguments Lidar.LeftMessage {PointCloud Pickled} t data.
Arguments Lidar.LeftSendPickled {PointCloud Pickled} t p.
Arguments Lidar.LeftWatermark {PointCloud Pickled} t.
Arguments Lidar.RightWatermark {PointCloud Pickled} t.
Arguments Lidar.Raised {PointCloud Pickled} e.
Arguments Lidar.init_state {Pickled}.
Arguments Lidar.pickled_messages {Pickled} l.
Arguments Lidar.release_data {Pickled} l.
Arguments Lidar.Build_LidarState {Pickled} pickled_messages release_data.
Arguments Lidar.process_point_clouds {PointCloud Pickled} from_simulator_point_cloud pickle_dumps st pc.
Arguments Lidar.on_watermark {PointCloud Pickled} st t.
Arguments Lidar.step {PointCloud Pickled} from_simulator_point_cloud pickle_dumps st op.
Arguments Lidar.run {PointCloud Pickled} from_simulator_point_cloud pickle_dumps st ops.

(** ** The camera callbacks of [detection_operator_runner.py]

    The five callbacks registered by [main] with [camera.listen]; they run
    serially under [_lock] and send on the five ingest streams. *)

Module Runner.
Import String.
Local Open Scope string_scope.
Section Runner.

(** The simulator image (its [timestamp] in seconds), the camera setups of
    [pylot.drivers.sensor_setup] (read only through [camera_type]) and the
    frames built from an image are opaque here. *)
Variable SimImage CameraSetup Frame : Type.
Variable image_timestamp : SimImage -> Q.
Variable camera_type : CameraSetup -> string.
(** [CameraFrame.from_simulator_frame(simulator_image, setup)] *)
Variable camera_frame_from_simulator_frame : SimImage -> CameraSetup -> Frame.
(** [DepthFrame.from_simulator_frame(simulator_image, setup, save_original_frame)] *)
Variable depth_frame_from_simulator_frame : SimImage -> CameraSetup -> bool -> Frame.
(** [SegmentedFrame.from_simulator_image(simulator_image, setup)] *)
Variable segmented_frame_from_simulator_image : SimImage -> CameraSetup -> Frame.

(** The setups bound in [main] and [FLAGS.visualize_depth_camera]. *)
Variable rgb_camera_setup depth_camera_setup seg_camera_setup : CameraSetup.
Variable left_camera_setup right_camera_setup : CameraSetup.
Variable visualize_depth_camera : bool.

Inductive IngestStream := RgbCamera | DepthCamera | SegCamera | LeftCamera | RightCamera.

Inductive Send :=
| SendMessage (s : IngestStream) (t : Timestamp) (data : Frame)
| SendWatermark (s : IngestStream) (t : Timestamp).

(** [erdos.Timestamp(coordinates=[int(simulator_image.timestamp * 1000)])] *)
Definition image_key (simulator_image : SimImage) : Timestamp :=
  TsCoords [py_int (image_timestamp simulator_image * 1000)].

Definition process_rgb_images (simulator_image : SimImage) : list Send :=
  let timestamp := image_key simulator_image in
  if String.eqb (camera_type rgb_camera_setup) "sensor.camera.rgb" then
    [SendMessage RgbCamera timestamp
       (camera_frame_from_simulator_frame simulator_image rgb_camera_setup)]
  else [].

Definition process_depth_images (simulator_image : SimImage) : list Send :=
  let timestamp := image_key simulator_image in
  if String.eqb (camera_type depth_camera_setup) "sensor.camera.depth" then
    [SendMessage DepthCamera timestamp
       (depth_frame_from_simulator_frame simulator_image depth_camera_setup
          visualize_depth_camera)]
  else [].

(** The test reads [depth_camera_setup.camera_type], as the source does. *)
Definition process_seg_images (simulator_image : SimImage) : list Send :=
  let timestamp := image_key simulator_image in
  if String.eqb (camera_type depth_camera_setup) "sensor.camera.semantic_segmentation" then
    [SendMessage SegCamera timestamp
       (segmented_frame_from_simulator_image simulator_image seg_camera_setup)]
  else [].

Definition process_left_images (simulator_image : SimImage) : list Send :=
  let timestamp := image_key simulator_image in
  if String.eqb (camera_type rgb_camera_setup) "sensor.camera.rgb" then
    [SendMessage LeftCamera timestamp
       (camera_frame_from_simulator_frame simulator_image left_camera_setup);
     SendWatermark LeftCamera timestamp]
  else [].

Definition process_right_images (simulator_image : SimImage) : list Send :=
  let timestamp := image_key simulator_image in
  if String.eqb (camera_type rgb_camera_setup) "sensor.camera.rgb" then
    [SendMessage RightCamera timestamp
       (camera_frame_from_simulator_frame simulator_image right_camera_setup);
     SendWatermark RightCamera timestamp]
  else [].

(** An image delivered to one of the five listeners. *)
Inductive Event :=
| RgbImage (img : SimImage)
| DepthImage (img : SimImage)
| SegImage (img : SimImage)
| LeftImage (img : SimImage)
| RightImage (img : SimImage).

Definition callback (e : Event) : list Send :=
  match e with
  | RgbImage img => process_rgb_images img
  | DepthImage img => process_depth_images img
  | SegImage img => process_seg_images img
  | LeftImage img => process_left_images img
  | RightImage img => process_right_images img
  end.

(** The callbacks run one at a time (under [_lock]); the sends in order. *)
Definition run_callbacks (events : list Event) : list Send := flat_map callback events.

End Runner.
End Runner.

Arguments Runner.SendMessage {Frame} s t data.
Arguments Runner.SendWatermark {Frame} s t.
Arguments Runner.RgbImage {SimImage} img.
Arguments Runner.DepthImage {SimImage} img.
Arguments Runner.SegImage {SimImage} img.
Arguments Runner.LeftImage {SimImage} img.
Arguments Runner.RightImage {SimImage} img.
Arguments Runner.image_key {SimImage} image_timestamp simulator_image.
Arguments Runner.run_callbacks {SimImage CameraSetup Frame} image_timestamp camera_type
  camera_frame_from_simulator_frame depth_frame_from_simulator_frame
  segmented_frame_from_simulator_image rgb_camera_setup depth_camera_setup
  seg_camera_setup left_camera_setup right_camera_setup visualize_depth_camera events.

(** ** Properties of the release gate *)

Module LidarFacts.
Import Lidar.
Section LidarFacts.

Variable PointCloud Pickled : Type.
Variable from_pc : SimulatorPC -> PointCloud.
Variable pickle : PointCloud -> Pickled.

Lemma run_cons_fst (st : LidarState Pickled) op ops :
  fst (run from_pc pickle st (op :: ops))
  = fst (run from_pc pickle (fst (step from_pc pickle st op)) ops).
Proof.
  simpl. destruct (step from_pc pickle st op) as [s1 o1]. simpl.
  destruct (run from_pc pickle s1 ops). reflexivity.
Qed.

Lemma gated_process (st : LidarState Pickled) pc :
  release_data st = false -> raw_data pc <> [] ->
  process_point_clouds from_pc pickle st pc
  = ({| pickled_messages :=
          TsDict.assign (pc_key pc) (pickle (from_pc pc)) (pickled_messages st);
        release_data := false |},
     [RightWatermark (pc_key pc)]).
Proof.
  intros Hr Hd. unfold process_point_clouds.
  destruct (raw_data pc) as [|b bs]; [congruence|]. rewrite Hr. reflexivity.
Qed.

End LidarFacts.
End LidarFacts.

Arguments Decay.select_person_bboxes {Obstacle BBox} is_person bounding_box obstacles.
Arguments Decay.evict {BBox} decay_max_latency game_time w.
Arguments Decay.avg_precision {BBox} get_precision_recall_at_iou bboxes old_bboxes.
Arguments Decay.compare_loop {BBox} get_precision_recall_at_iou game_time bboxes w.
Arguments Decay.on_data {Obstacle BBox} is_person bounding_box
  get_precision_recall_at_iou decay_max_latency w t obstacles.
Arguments Decay.run {Obstacle BBox} is_person bounding_box
  get_precision_recall_at_iou decay_max_latency w inputs.

Lemma iou_thresholds_sorted : StronglySorted Qlt Decay.iou_thresholds.
Proof.
  unfold Decay.iou_thresholds. simpl.
  repeat (constructor || (unfold Qlt; simpl; lia)).
Qed.

(** ** Properties of the decay window *)

Module DecayFacts.
Import Decay.
Section DecayFacts.

Variable Obstacle BBox : Type.
Variable is_person : Obstacle -> bool.
Variable bounding_box : Obstacle -> BBox.
Variable gpr : list BBox -> list BBox -> Q -> Q * Q.
Variable L : Z.

Local Abbreviation evict := (evict (BBox:=BBox) L).
Local Abbreviation on_data := (on_data is_person bounding_box gpr L).
Local Abbreviation run := (run is_person bounding_box gpr L).

Lemma evict_suffix k (w : Window BBox) :
  exists pre, w = pre ++ evict k w
              /\ Forall (fun e => L < k - fst e)%Z pre.
Proof.
  induction w as [|[a b] w IH]; simpl.
  - exists []. split; [reflexivity|constructor].
  - destruct (Z.ltb L (k - a)) eqn:E.
    + destruct IH as [pre [Hpre Hf]]. exists ((a, b) :: pre).
      split; [simpl; rewrite <- Hpre; reflexivity|].
      constructor; [apply Z.ltb_lt; exact E|exact Hf].
    + exists []. split; [reflexivity|constructor].
Qed.

Lemma evict_head_ok k (w : Window BBox) :
  match evict k w with
  | (a, _) :: _ => (k - a <= L)%Z
  | [] => True
  end.
Proof.
  induction w as [|[a b] w IH]; simpl; [exact I|].
  destruct (Z.ltb L (k - a)) eqn:E; [exact IH|].
  apply Z.ltb_ge in E. exact E.
Qed.

Lemma StronglySorted_app_r (l : list Z) k :
  StronglySorted Z.le l -> Forall (fun a => a <= k)%Z l ->
  StronglySorted Z.le (l ++ [k]).
Proof.
  induction l as [|a l IH]; intros Hs Hf; simpl.
  - repeat constructor.
  - inversion Hs as [|? ? Hs' Ha]; subst. inversion Hf as [|? ? Hak Hf']; subst.
    constructor; [apply IH; assumption|].
    apply Forall_app. split; [exact Ha|]. constructor; [exact Hak|constructor].
Qed.

Lemma StronglySorted_app_inv_r (l1 l2 : list Z) :
  StronglySorted Z.le (l1 ++ l2) -> StronglySorted Z.le l2.
Proof.
  induction l1 as [|a l1 IH]; simpl; intros H; [exact H|].
  inversion H; subst. apply IH. assumption.
Qed.

Lemma Forall_app_inv_r {A} (P : A -> Prop) l1 l2 :
  Forall P (l1 ++ l2) -> Forall P l2.
Proof. intros H. apply Forall_app in H. apply H. Qed.

(** The window invariant at current key [c]. *)
Definition window_inv (c : Z) (w : Window BBox) : Prop :=
  StronglySorted Z.le (map fst w)
  /\ Forall (fun a => a <= c /\ c - a <= L)%Z (map fst w).

Lemma evict_within k (w : Window BBox) :
  StronglySorted Z.le (map fst w) ->
  Forall (fun a => k - a <= L)%Z (map fst (evict k w)).
Proof.
  intros Hs. destruct (evict_suffix k w) as [pre [Hw _]].
  pose proof (evict_head_ok k w) as Hh.
  rewrite Hw, map_app in Hs. apply StronglySorted_app_inv_r in Hs.
  destruct (evict k w) as [|[a b] r]; simpl in *; [constructor|].
  inversion Hs as [|? ? _ Hr]; subst.
  constructor; [exact Hh|].
  eapply Forall_impl; [|exact Hr]. simpl. intros x Hx. lia.
Qed.

Lemma on_data_inv c k (w : Window BBox) obs :
  (0 <= L)%Z -> (c <= k)%Z -> window_inv c w ->
  match on_data w (TsCoords [k]) obs with
  | Ok (w', _) => window_inv k w'
  | Err _ => False
  end.
Proof.
  intros HL Hck [Hs Hf]. simpl.
  destruct (evict_suffix k w) as [pre [Hw _]].
  pose proof (evict_within k w Hs) as Hwin.
  assert (Hs1 : StronglySorted Z.le (map fst (evict k w))).
  { rewrite Hw, map_app in Hs. eapply StronglySorted_app_inv_r; exact Hs. }
  assert (Hf1 : Forall (fun a => a <= c /\ c - a <= L)%Z (map fst (evict k w))).
  { rewrite Hw, map_app in Hf. eapply Forall_app_inv_r; exact Hf. }
  split; rewrite map_app; simpl.
  - apply StronglySorted_app_r; [exact Hs1|].
    eapply Forall_impl; [|exact Hf1]. simpl. intros a Ha. lia.
  - apply Forall_app. split.
    + apply Forall_forall. intros a Ha.
      pose proof (proj1 (Forall_forall _ _) Hf1 a Ha).
      pose proof (proj1 (Forall_forall _ _) Hwin a Ha). simpl in *. lia.
    + constructor; [lia|constructor].
Qed.

Lemma last_cons_default (l : list Z) : forall k c, last (k :: l) c = last l k.
Proof.
  induction l as [|x l IH]; intros k c; [reflexivity|].
  change (last (x :: l) c = last (x :: l) k). rewrite !IH. reflexivity.
Qed.

Lemma run_inv inputs : forall c (w : Window BBox),
  (0 <= L)%Z -> StronglySorted Z.le (map fst inputs) ->
  Forall (fun k => c <= k)%Z (map fst inputs) -> window_inv c w ->
  window_inv (last (map fst inputs) c) (fst (run w inputs)).
Proof.
  induction inputs as [|[k obs] inputs IH]; intros c w HL Hs Hc Hw; simpl; [exact Hw|].
  inversion Hs as [|? ? Hs' Hk]; subst. inversion Hc as [|? ? Hck _]; subst.
  pose proof (on_data_inv c k w obs HL Hck Hw) as Hstep. simpl in Hstep.
  destruct (run _ inputs) as [w2 o2] eqn:Er.
  specialize (IH k _ HL Hs' Hk Hstep). rewrite Er in IH. simpl in IH.
  change (window_inv (last (k :: map fst inputs) c) w2).
  rewrite last_cons_default. exact IH.
Qed.

Lemma evict_filter k (w : Window BBox) :
  StronglySorted Z.le (map fst w) ->
  evict k w = filter (fun e => Z.leb (k - fst e) L) w.
Proof.
  induction w as [|[a b] w IH]; intros Hs; simpl; [reflexivity|].
  inversion Hs as [|? ? Hs' Ha]; subst.
  destruct (Z.ltb L (k - a)) eqn:E.
  - apply Z.ltb_lt in E. replace (Z.leb (k - a) L) with false
      by (symmetry; apply Z.leb_gt; lia).
    apply IH; exact Hs'.
  - apply Z.ltb_ge in E. replace (Z.leb (k - a) L) with true
      by (symmetry; apply Z.leb_le; lia).
    f_equal. symmetry. apply forallb_filter_id.
    apply forallb_forall. intros [a' b'] Hin. apply Z.leb_le.
    assert (In a' (map fst w)) by (apply (in_map fst) in Hin; exact Hin).
    pose proof (proj1 (Forall_forall _ _) Ha a' H). simpl in *. lia.
Qed.

Lemma compare_loop_spec k bb (w : Window BBox) :
  compare_loop gpr k bb w
  = map (fun e => ((k - fst e)%Z, avg_precision gpr bb (snd e)))
        (filter (fun e => (0 <? length bb)%nat || (0 <? length (snd e))%nat) w).
Proof.
  induction w as [|[a b] w IH]; simpl; [reflexivity|].
  destruct ((0 <? length bb)%nat || (0 <? length b)%nat); simpl; rewrite IH; reflexivity.
Qed.

Lemma avg_precision_spec bb old :
  avg_precision gpr bb old
  = py_sum (map (fun iou => fst (gpr bb old iou)) iou_thresholds) / inject_Z 9.
Proof. unfold avg_precision. rewrite length_map. reflexivity. Qed.

Lemma on_data_filter (w : Window BBox) t obs :
  on_data w t (filter is_person obs) = on_data w t obs.
Proof.
  unfold Decay.on_data. rewrite select_person_bboxes_filter. reflexivity.
Qed.

Lemma run_filter inputs : forall (w : Window BBox),
  run w (map (fun '(k, obs) => (k, filter is_person obs)) inputs) = run w inputs.
Proof.
  induction inputs as [|[k obs] inputs IH]; intros w; simpl; [reflexivity|].
  rewrite select_person_bboxes_filter. rewrite IH. reflexivity.
Qed.

Lemma evict_incl k (w : Window BBox) e : In e (evict k w) -> In e w.
Proof.
  destruct (evict_suffix k w) as [pre [Hw _]]. intros H.
  rewrite Hw. apply in_or_app. right. exact H.
Qed.

Lemma run_entries (all : list (Z * list Obstacle)) inputs : forall (w : Window BBox),
  incl inputs all ->
  (forall e, In e w -> exists obs, In (fst e, obs) all
                                /\ snd e = map bounding_box (filter is_person obs)) ->
  forall e, In e (fst (run w inputs)) ->
    exists obs, In (fst e, obs) all /\ snd e = map bounding_box (filter is_person obs).
Proof.
  induction inputs as [|[k obs] inputs IH]; intros w Hincl Hw e He; simpl in He.
  - apply Hw. exact He.
  - destruct (run _ inputs) as [w2 o2] eqn:Er. simpl in He.
    assert (Hrun : fst (run (evict k w ++ [(k, select_person_bboxes is_person bounding_box obs)])
                     inputs) = w2) by (rewrite Er; reflexivity).
    rewrite <- Hrun in He.
    eapply IH; [| |exact He].
    + intros x Hx. apply Hincl. right. exact Hx.
    + intros e' He'. apply in_app_or in He' as [He'|He'].
      * apply Hw. eapply evict_incl. exact He'.
      * destruct He' as [He'|[]]. subst e'. exists obs. split.
        -- apply Hincl. left. reflexivity.
        -- simpl. apply select_person_bboxes_spec.
Qed.

End DecayFacts.
Arguments window_inv {BBox} L c w.
End DecayFacts.

(** ** Properties of the trajectory scorer *)

Module TrajectoryFacts.
Import Prediction.

Lemma py_neg_index_err {A} (l : list A) i e : py_neg_index l i = Err e -> e = IndexError.
Proof.
  unfold py_neg_index. destruct ((1 <=? i) && (i <=? length l)); [|congruence].
  destruct (nth_error l (length l - i)); congruence.
Qed.

Lemma py_neg_index_in {A} (l : list A) i :
  (1 <= i <= length l)%nat -> exists a, py_neg_index l i = Ok a.
Proof.
  intros [H1 H2]. unfold py_neg_index.
  replace ((1 <=? i) && (i <=? length l)) with true
    by (symmetry; apply andb_true_iff; split; apply Nat.leb_le; lia).
  destruct (nth_error l (length l - i)) as [a|] eqn:E; [exists a; reflexivity|].
  apply nth_error_None in E. lia.
Qed.

Lemma py_neg_index_out {A} (l : list A) i :
  (length l < i)%nat -> py_neg_index l i = Err IndexError.
Proof.
  intros H. unfold py_neg_index.
  replace (i <=? length l) with false by (symmetry; apply Nat.leb_gt; lia).
  rewrite andb_false_r. reflexivity.
Qed.

Lemma py_neg_index_snoc {A} (l : list A) x i :
  (1 <= i)%nat -> py_neg_index (l ++ [x]) (S i) = py_neg_index l i.
Proof.
  intros Hi. unfold py_neg_index.
  replace (length (l ++ [x])) with (S (length l)) by (rewrite length_app; simpl; lia).
  change ((1 <=? S i) && (S i <=? S (length l)))%nat with (i <=? length l)%nat.
  change (S (length l) - S i)%nat with (length l - i)%nat.
  replace (1 <=? i)%nat with true by (symmetry; apply Nat.leb_le; lia). simpl.
  destruct (i <=? length l)%nat eqn:E; [|reflexivity].
  apply Nat.leb_le in E. rewrite nth_error_app1 by lia. reflexivity.
Qed.

Lemma py_neg_index_last {A} (l : list A) x : py_neg_index (l ++ [x]) 1 = Ok x.
Proof.
  unfold py_neg_index.
  replace (length (l ++ [x])) with (S (length l)) by (rewrite length_app; simpl; lia).
  simpl. rewrite Nat.sub_0_r.
  rewrite nth_error_app2 by lia. rewrite Nat.sub_diag. reflexivity.
Qed.

Lemma py_neg_index_prefix {A} (pre l : list A) i :
  (1 <= i <= length l)%nat -> py_neg_index (pre ++ l) i = py_neg_index l i.
Proof.
  intros [H1 H2]. unfold py_neg_index. rewrite length_app.
  replace ((1 <=? i) && (i <=? length pre + length l))%nat with true
    by (symmetry; apply andb_true_iff; split; apply Nat.leb_le; lia).
  replace ((1 <=? i) && (i <=? length l)) with true
    by (symmetry; apply andb_true_iff; split; apply Nat.leb_le; lia).
  replace (length pre + length l - i)%nat with (length pre + (length l - i))%nat by lia.
  rewrite nth_error_app2 by lia.
  replace (length pre + (length l - i) - length pre)%nat with (length l - i)%nat by lia.
  reflexivity.
Qed.

Lemma metric_loop_shift pt gt p g idxs acc :
  Forall (fun i => (1 <= i)%nat) idxs ->
  metric_loop (pt ++ [p]) (gt ++ [g]) (map S idxs) acc = metric_loop pt gt idxs acc.
Proof.
  revert acc; induction idxs as [|i idxs IH]; intros acc Hf; simpl; [reflexivity|].
  inversion Hf; subst.
  rewrite !py_neg_index_snoc by assumption.
  destruct (py_neg_index pt i); simpl; [|reflexivity].
  destruct (py_neg_index gt i); simpl; [|reflexivity].
  apply IH; assumption.
Qed.

Lemma metric_loop_ext pt gt gt' idxs acc :
  (forall i, In i idxs -> py_neg_index gt i = py_neg_index gt' i) ->
  metric_loop pt gt idxs acc = metric_loop pt gt' idxs acc.
Proof.
  revert acc; induction idxs as [|i idxs IH]; intros acc H; simpl; [reflexivity|].
  rewrite (H i (or_introl eq_refl)).
  destruct (py_neg_index pt i); simpl; [|reflexivity].
  destruct (py_neg_index gt' i); simpl; [|reflexivity].
  apply IH. intros j Hj. apply H. right. exact Hj.
Qed.

Lemma metric_loop_fail pt gt idxs acc i :
  In i idxs -> (length gt < i)%nat ->
  metric_loop pt gt idxs acc = Err IndexError.
Proof.
  revert acc; induction idxs as [|j idxs IH]; intros acc Hin Hi; [destruct Hin|].
  simpl. destruct (py_neg_index pt j) eqn:Ep; simpl.
  - destruct (py_neg_index gt j) eqn:Eg; simpl.
    + destruct Hin as [<-|Hin].
      * rewrite py_neg_index_out in Eg by exact Hi. discriminate.
      * apply IH; assumption.
    + apply py_neg_index_err in Eg. subst. reflexivity.
  - apply py_neg_index_err in Ep. subst. reflexivity.
Qed.

Lemma combine_snoc {A B} (l1 : list A) (l2 : list B) a b :
  length l1 = length l2 -> combine (l1 ++ [a]) (l2 ++ [b]) = combine l1 l2 ++ [(a, b)].
Proof.
  revert l2; induction l1 as [|x l1 IH]; intros [|y l2] H; simpl in *;
    try discriminate; [reflexivity|].
  rewrite IH by lia. reflexivity.
Qed.

Lemma py_sum_snoc l x : py_sum (l ++ [x]) = py_sum l + x.
Proof. unfold py_sum. rewrite fold_left_app. reflexivity. Qed.

Definition pair_l2 (e : Vector2D * Vector2D) : Q := l2_distance (fst e) (snd e).
Definition pair_l1 (e : Vector2D * Vector2D) : Q := l1_distance (fst e) (snd e).

Lemma metric_loop_sum n : forall pt gt a b,
  length pt = n -> length gt = n ->
  exists q1 q2, metric_loop pt gt (seq 1 n) (a, b) = Ok (q1, q2)
    /\ q1 == a + py_sum (map pair_l2 (combine pt gt))
    /\ q2 == b + py_sum (map pair_l1 (combine pt gt)).
Proof.
  induction n as [|n IH]; intros pt gt a b Hp Hg.
  - destruct pt; [|discriminate]. destruct gt; [|discriminate].
    exists a, b. split; [reflexivity|]. unfold py_sum. simpl. split; ring.
  - destruct (exists_last (l:=pt)) as [pt' [p Ept]]; [intros ->; discriminate|].
    destruct (exists_last (l:=gt)) as [gt' [g Egt]]; [intros ->; discriminate|].
    subst pt gt. rewrite length_app in Hp, Hg. simpl in Hp, Hg.
    assert (Hp' : length pt' = n) by lia. assert (Hg' : length gt' = n) by lia.
    destruct (IH pt' gt' (a + l2_distance p g) (b + l1_distance p g) Hp' Hg')
      as [q1 [q2 [Hl [H1 H2]]]].
    exists q1, q2. split.
    + change (seq 1 (S n)) with (1%nat :: seq 2 n). simpl.
      rewrite !py_neg_index_last. simpl. rewrite <- seq_shift.
      rewrite metric_loop_shift; [exact Hl|].
      apply Forall_forall. intros i Hi. apply in_seq in Hi. lia.
    + rewrite combine_snoc by lia. rewrite !map_app. cbn [map].
      rewrite !py_sum_snoc.
      rewrite H1, H2. unfold pair_l2, pair_l1. simpl. split; ring.
Qed.

Lemma py_sum_const_acc l c : forall a,
  Forall (fun x => x == c) l ->
  fold_left Qplus l a == a + inject_Z (Z.of_nat (length l)) * c.
Proof.
  induction l as [|x l IH]; intros a H.
  - simpl. ring.
  - inversion H; subst.
    change (fold_left Qplus (x :: l) a) with (fold_left Qplus l (a + x)).
    change (length (x :: l)) with (S (length l)).
    rewrite IH by assumption.
    rewrite Nat2Z.inj_succ. unfold Z.succ. rewrite inject_Z_plus.
    rewrite H2. ring.
Qed.

Lemma py_sum_const l c :
  Forall (fun x => x == c) l -> py_sum l == inject_Z (Z.of_nat (length l)) * c.
Proof. intros H. unfold py_sum. rewrite py_sum_const_acc by exact H. ring. Qed.

Definition offset (dx dy : Q) (p g : Vector2D) : Prop :=
  vx p == vx g + dx /\ vy p == vy g + dy.

Lemma offset_l2 dx dy p g : offset dx dy p g -> l2_distance p g == dx * dx + dy * dy.
Proof.
  intros [Hx Hy]. unfold l2_distance. rewrite Hx, Hy. ring.
Qed.

Lemma offset_l1 dx dy p g : offset dx dy p g -> l1_distance p g == Qabs dx + Qabs dy.
Proof.
  intros [Hx Hy]. unfold l1_distance. rewrite Hx, Hy.
  setoid_replace (vx g + dx - vx g) with dx by ring.
  setoid_replace (vy g + dy - vy g) with dy by ring.
  reflexivity.
Qed.

Lemma Forall2_combine {A B} (R : A -> B -> Prop) (f : A * B -> Q) c l1 l2 :
  Forall2 R l1 l2 -> (forall a b, R a b -> f (a, b) == c) ->
  Forall (fun x => x == c) (map f (combine l1 l2)).
Proof.
  intros H Hf. induction H; simpl; constructor; [apply Hf; assumption|exact IHForall2].
Qed.

Lemma nat_Q_nonzero n : n <> O -> ~ inject_Z (Z.of_nat n) == 0.
Proof. intros Hn. unfold Qeq. simpl. lia. Qed.

End TrajectoryFacts.

(** ** Properties of [_calculate_metrics] and of the evaluator's buffers *)

Module EvalFacts.
Import Prediction.

Section Classify.
Variable Label : Type.
Variable is_vehicle is_person : Label -> bool.

Definition classified (op : ObstaclePrediction Label) : Prop :=
  is_vehicle (op_label op) = true \/ is_person (op_label op) = true.

Lemma score_obstacle_cases g m (op : ObstaclePrediction Label) m1 :
  score_obstacle is_vehicle is_person g m op = Ok m1 ->
  (is_vehicle (op_label op) = true
   /\ vehicle_cnt m1 = S (vehicle_cnt m) /\ person_cnt m1 = person_cnt m)
  \/ (is_vehicle (op_label op) = false /\ is_person (op_label op) = true
      /\ vehicle_cnt m1 = vehicle_cnt m /\ person_cnt m1 = S (person_cnt m)).
Proof.
  unfold score_obstacle. destruct (dict_get (op_id op) g); simpl; [|discriminate].
  destruct (is_vehicle (op_label op)) eqn:Ev; simpl.
  - destruct (trajectory_metrics _ _) as [[[l2 l1] fde]|e]; simpl; [|discriminate].
    intros H; inversion H; subst. left. simpl. auto.
  - destruct (is_person (op_label op)) eqn:Ep; simpl; [|discriminate].
    destruct (trajectory_metrics _ _) as [[[l2 l1] fde]|e]; simpl; [|discriminate].
    intros H; inversion H; subst. right. simpl. auto.
Qed.

Lemma score_obstacle_unclassified g m (op : ObstaclePrediction Label) :
  is_vehicle (op_label op) = false -> is_person (op_label op) = false ->
  score_obstacle is_vehicle is_person g m op
  = match dict_get (op_id op) g with
    | Ok _ => Err ValueError
    | Err e => Err e
    end.
Proof.
  intros Hv Hp. unfold score_obstacle.
  destruct (dict_get (op_id op) g); simpl; [|reflexivity].
  rewrite Hv, Hp. reflexivity.
Qed.

Lemma score_obstacles_counts g ops : forall m m',
  score_obstacles is_vehicle is_person g m ops = Ok m' ->
  Forall classified ops
  /\ vehicle_cnt m' = (vehicle_cnt m
                       + length (filter (fun op => is_vehicle (op_label op)) ops))%nat
  /\ person_cnt m' = (person_cnt m
       + length (filter (fun op => negb (is_vehicle (op_label op))
                                   && is_person (op_label op)) ops))%nat.
Proof.
  induction ops as [|op ops IH]; intros m m' H; simpl in H.
  - inversion H; subst. simpl. repeat split; [constructor|lia|lia].
  - destruct (score_obstacle is_vehicle is_person g m op) as [m1|e] eqn:E;
      simpl in H; [|discriminate].
    destruct (IH m1 m' H) as [Hf [Hv Hp]].
    apply score_obstacle_cases in E.
    destruct E as [[Ev [Ec Pc]]|[Ev [Ep [Ec Pc]]]]; simpl; rewrite Ev; simpl.
    + rewrite ?Ep. split; [constructor; [left; exact Ev|exact Hf]|]. lia.
    + rewrite Ep. simpl. split; [constructor; [right; exact Ep|exact Hf]|]. lia.
Qed.

Lemma score_obstacles_unclassified g ops : forall m (op : ObstaclePrediction Label),
  In op ops -> is_vehicle (op_label op) = false -> is_person (op_label op) = false ->
  exists e, score_obstacles is_vehicle is_person g m ops = Err e.
Proof.
  induction ops as [|op' ops IH]; intros m op Hin Hv Hp; [destruct Hin|].
  simpl. destruct Hin as [->|Hin].
  - rewrite score_obstacle_unclassified by assumption.
    destruct (dict_get (op_id op) g); simpl; eexists; reflexivity.
  - destruct (score_obstacle is_vehicle is_person g m op') as [m1|e]; simpl.
    + eapply IH; eassumption.
    + exists e. reflexivity.
Qed.

Lemma classified_counts (l : list (ObstaclePrediction Label)) :
  Forall classified l ->
  (length (filter (fun op => is_vehicle (op_label op)) l)
   + length (filter (fun op => negb (is_vehicle (op_label op))
                               && is_person (op_label op)) l))%nat = length l.
Proof.
  induction l as [|op l IH]; intros H; simpl; [reflexivity|].
  inversion H as [|? ? Hc Hf]; subst.
  destruct (is_vehicle (op_label op)) eqn:Ev; simpl.
  - specialize (IH Hf). lia.
  - destruct Hc as [Hc|Hc]; [congruence|]. rewrite Hc. simpl.
    specialize (IH Hf). lia.
Qed.

End Classify.

Section Buffers.
Variable Label : Type.
Variable is_vehicle is_person : Label -> bool.
Variable Pose : Type.
Variable p2w : Pose -> ObstaclePrediction Label -> ObstaclePrediction Label.
Variable t2w : Pose -> ObstacleTrajectory -> ObstacleTrajectory.
Variable W : nat.

Local Abbreviation step := (eval_step is_vehicle is_person p2w t2w W).
Local Abbreviation run := (eval_run is_vehicle is_person p2w t2w W).
Local Abbreviation nontop := (fun op : EvalOp Label Pose =>
                                if is_nontop_watermark op then 1%nat else 0%nat).

Lemma deque_append_length {A} maxlen (q : list A) b :
  (1 <= maxlen)%nat -> (length q <= maxlen)%nat ->
  length (deque_append maxlen q b) = Nat.min (length q + 1) maxlen.
Proof.
  intros H1 H2. destruct maxlen as [|m]; [lia|]. unfold deque_append.
  destruct (Nat.ltb (length q) (S m)) eqn:E.
  - apply Nat.ltb_lt in E. rewrite length_app. simpl. lia.
  - apply Nat.ltb_ge in E. rewrite length_app. simpl.
    destruct q as [|x q]; simpl in *; lia.
Qed.

Lemma no_raised_app o1 o2 :
  no_raised (o1 ++ o2) = no_raised o1 && no_raised o2.
Proof. unfold no_raised. rewrite existsb_app. apply negb_orb. Qed.

Lemma count_scored_app o1 o2 :
  count_scored (o1 ++ o2) = (count_scored o1 + count_scored o2)%nat.
Proof. unfold count_scored. rewrite filter_app, length_app. reflexivity. Qed.

Lemma eval_step_count (st : EvalState Label Pose) op :
  (1 <= W)%nat -> (length (predictions st) <= W)%nat ->
  no_raised (snd (step st op)) = true ->
  (count_scored (snd (step st op)) + length (predictions (fst (step st op)))
   = nontop op + length (predictions st))%nat
  /\ length (predictions (fst (step st op)))
     = Nat.min (length (predictions st) + nontop op) W.
Proof.
  intros HW Hle Hnr.
  destruct op as [d|[|c]].
  - destruct d; simpl; lia.
  - simpl. lia.
  - unfold eval_step, on_watermark in *. cbn [is_nontop_watermark].
    destruct (tracking_msgs st) as [|tm tms]; [discriminate|].
    destruct (prediction_msgs st) as [|pm pms]; [discriminate|].
    destruct (pose_msgs st) as [|pose poses]; [discriminate|].
    destruct (Nat.eqb (length (predictions st)) W) eqn:E.
    + apply Nat.eqb_eq in E.
      destruct (predictions st) as [|b0 rest] eqn:Ep; [discriminate|].
      destruct (calculate_metrics is_vehicle is_person (build_ground Pose t2w pose tm) b0)
        as [r|e]; simpl in *; [|discriminate].
      rewrite deque_append_length by (simpl in *; lia). rewrite <- E.
      unfold count_scored. simpl. lia.
    + apply Nat.eqb_neq in E. simpl in *.
      rewrite deque_append_length by lia. lia.
Qed.

Lemma eval_run_count ops : forall (st : EvalState Label Pose),
  (1 <= W)%nat -> (length (predictions st) <= W)%nat ->
  no_raised (snd (run st ops)) = true ->
  (count_scored (snd (run st ops)) + length (predictions (fst (run st ops)))
   = nontop_watermarks ops + length (predictions st))%nat
  /\ length (predictions (fst (run st ops)))
     = Nat.min (length (predictions st) + nontop_watermarks ops) W.
Proof.
  induction ops as [|op ops IH]; intros st HW Hle Hnr.
  - simpl. unfold nontop_watermarks, count_scored. simpl. lia.
  - simpl in Hnr |- *.
    pose proof (eval_step_count st op HW Hle) as Hs.
    destruct (step st op) as [s1 o1] eqn:E1.
    destruct (run s1 ops) as [s2 o2] eqn:E2. simpl in *.
    rewrite no_raised_app in Hnr. apply andb_true_iff in Hnr as [Hn1 Hn2].
    destruct (Hs Hn1) as [Hc1 Hl1].
    assert (Hle1 : (length (predictions s1) <= W)%nat) by lia.
    assert (Hn2' : no_raised (snd (run s1 ops)) = true) by (rewrite E2; exact Hn2).
    destruct (IH s1 HW Hle1 Hn2') as [Hc2 Hl2]. rewrite E2 in Hc2, Hl2. simpl in Hc2, Hl2.
    rewrite count_scored_app.
    unfold nontop_watermarks in *. simpl.
    destruct (is_nontop_watermark op); simpl in *; lia.
Qed.

End Buffers.

End EvalFacts.

(** * Claims *)

Module Claims.
Import Lidar LidarFacts DecayFacts TrajectoryFacts.

(** A concrete instance of the LiDAR driver: the converted point cloud is
    the raw buffer and pickling is the identity. *)
Definition pc_raw (pc : SimulatorPC) : list Z := raw_data pc.
Definition pickle_id (d : list Z) : list Z := d.

(** Two callbacks 0.1 ms apart, both keyed [int(t * 1000) = 10]. *)
Definition pc_a : SimulatorPC := {| pc_timestamp := 101 # 10000; raw_data := [1%Z] |}.
Definition pc_b : SimulatorPC := {| pc_timestamp := 102 # 10000; raw_data := [2%Z] |}.

(** C3 (counterexample): two gated callbacks with the same key raise no
    error; the second snapshot silently replaces the first. *)
Lemma C3_duplicate_key_overwritten :
  let r := run pc_raw pickle_id init_state [Callback pc_a; Callback pc_b] in
  snd r = [RightWatermark (TsCoords [10%Z]); RightWatermark (TsCoords [10%Z])]
  /\ TsDict.lookup (TsCoords [10%Z]) (pickled_messages (fst r)) = Some [2%Z].
Proof. vm_compute. split; reflexivity. Qed.

(** C3 (amended): in gated mode a callback with a non-empty point cloud
    never fails on a present key: it stores the new snapshot under its key,
    replacing any earlier unreleased one, and forwards only a watermark on
    the right stream. *)
Theorem C3_gated_push_replaces {PointCloud Pickled : Type}
    (from_pc : SimulatorPC -> PointCloud) (pickle : PointCloud -> Pickled)
    (st : LidarState Pickled) (pc : SimulatorPC) :
  release_data st = false -> raw_data pc <> [] ->
  let r := process_point_clouds from_pc pickle st pc in
  snd r = [RightWatermark (pc_key pc)]
  /\ TsDict.lookup (pc_key pc) (pickled_messages (fst r)) = Some (pickle (from_pc pc))
  /\ release_data (fst r) = false.
Proof.
  intros Hr Hd r. subst r. rewrite (gated_process _ _ from_pc pickle st pc Hr Hd).
  simpl. split; [reflexivity|]. split; [apply TsDict.lookup_assign_eq|reflexivity].
Qed.

Lemma C3_gated_push_replaces_witness :
  let st := fst (run pc_raw pickle_id init_state [Callback pc_a]) in
  release_data st = false /\ raw_data pc_b <> []
  /\ TsDict.lookup (pc_key pc_b) (pickled_messages st) = Some [1%Z]
  /\ TsDict.lookup (pc_key pc_b)
       (pickled_messages (fst (process_point_clouds pc_raw pickle_id st pc_b)))
     = Some [2%Z].
Proof.
  intros st.
  assert (Hr : release_data st = false) by reflexivity.
  assert (Hd : raw_data pc_b <> []) by discriminate.
  split; [exact Hr|]. split; [exact Hd|]. split; [reflexivity|].
  exact (proj1 (proj2 (C3_gated_push_replaces pc_raw pickle_id st pc_b Hr Hd))).
Defined.

(** C5: in gated mode, a callback followed by the release of its key emits
    the stored payload and a watermark on the left stream exactly once and
    removes the snapshot; a second release of that key raises [KeyError],
    emits nothing and leaves the state unchanged.  More generally a
    release of any non-top key without a snapshot raises [KeyError]. *)
Theorem C5_offer_release_once {PointCloud Pickled : Type}
    (from_pc : SimulatorPC -> PointCloud) (pickle : PointCloud -> Pickled)
    (st : LidarState Pickled) (pc : SimulatorPC) :
  release_data st = false -> raw_data pc <> [] ->
  let k := pc_key pc in
  let s1 := fst (process_point_clouds from_pc pickle st pc) in
  let s2 := fst (on_watermark (PointCloud:=PointCloud) s1 k) in
  snd (process_point_clouds from_pc pickle st pc) = [RightWatermark k]
  /\ snd (on_watermark (PointCloud:=PointCloud) s1 k) = [LeftSendPickled k (pickle (from_pc pc)); LeftWatermark k]
  /\ TsDict.lookup k (pickled_messages s2) = None
  /\ on_watermark (PointCloud:=PointCloud) s2 k = (s2, [Raised KeyError])
  /\ (forall (s : LidarState Pickled) c, TsDict.lookup (TsCoords c) (pickled_messages s) = None ->
        on_watermark (PointCloud:=PointCloud) s (TsCoords c) = (s, [Raised KeyError])).
Proof.
  intros Hr Hd k s1 s2.
  assert (Hgen : forall (s : LidarState Pickled) c,
            TsDict.lookup (TsCoords c) (pickled_messages s) = None ->
            on_watermark (PointCloud:=PointCloud) s (TsCoords c) = (s, [Raised KeyError])).
  { intros s c H. unfold on_watermark. rewrite H. reflexivity. }
  subst s2 s1 k.
  rewrite (gated_process _ _ from_pc pickle st pc Hr Hd). unfold pc_key. simpl.
  rewrite TsDict.lookup_assign_eq. simpl.
  split; [reflexivity|]. split; [reflexivity|].
  assert (Hn : TsDict.lookup (TsCoords [py_int (pc_timestamp pc * 1000)])
                 (TsDict.delete (TsCoords [py_int (pc_timestamp pc * 1000)])
                    (TsDict.assign (TsCoords [py_int (pc_timestamp pc * 1000)])
                       (pickle (from_pc pc)) (pickled_messages st))) = None)
    by apply TsDict.lookup_delete_eq.
  split; [exact Hn|]. split; [|exact Hgen].
  rewrite Hn. reflexivity.
Qed.

Lemma C5_offer_release_once_witness :
  release_data (@init_state (list Z)) = false /\ raw_data pc_a <> []
  /\ snd (on_watermark (PointCloud:=list Z)
            (fst (process_point_clouds pc_raw pickle_id init_state pc_a)) (pc_key pc_a))
     = [LeftSendPickled (TsCoords [10%Z]) [1%Z]; LeftWatermark (TsCoords [10%Z])].
Proof.
  assert (Hr : release_data (@init_state (list Z)) = false) by reflexivity.
  assert (Hd : raw_data pc_a <> []) by discriminate.
  split; [exact Hr|]. split; [exact Hd|].
  exact (proj1 (proj2 (C5_offer_release_once pc_raw pickle_id init_state pc_a Hr Hd))).
Defined.

(** C8: once the top watermark has been received, the gate is in immediate
    mode after any further operations, and every callback with a non-empty
    point cloud is forwarded at once (message and watermark on the left
    stream) without touching the stored snapshots. *)
Theorem C8_top_release_irrevocable {PointCloud Pickled : Type}
    (from_pc : SimulatorPC -> PointCloud) (pickle : PointCloud -> Pickled)
    (st : LidarState Pickled) (pre post : list Op) (pc : SimulatorPC) :
  raw_data pc <> [] ->
  let s := fst (run from_pc pickle st (pre ++ Watermark TsTop :: post)) in
  release_data s = true
  /\ process_point_clouds from_pc pickle s pc
     = (s, [LeftMessage (pc_key pc) (from_pc pc); LeftWatermark (pc_key pc)]).
Proof.
  intros Hd s.
  assert (Hs : release_data s = true).
  { subst s. rewrite run_app, run_cons_fst.
    apply run_keeps_release. reflexivity. }
  split; [exact Hs|].
  unfold process_point_clouds. destruct (raw_data pc) as [|b bs]; [congruence|].
  rewrite Hs. reflexivity.
Qed.

Lemma C8_top_release_irrevocable_witness :
  raw_data pc_b <> []
  /\ process_point_clouds pc_raw pickle_id
       (fst (run pc_raw pickle_id init_state
               ([Callback pc_a] ++ Watermark TsTop :: [Callback pc_a])))
       pc_b
     = (fst (run pc_raw pickle_id init_state
               ([Callback pc_a] ++ Watermark TsTop :: [Callback pc_a])),
        [LeftMessage (TsCoords [10%Z]) [2%Z]; LeftWatermark (TsCoords [10%Z])]).
Proof.
  assert (Hd : raw_data pc_b <> []) by discriminate.
  split; [exact Hd|].
  exact (proj2 (C8_top_release_irrevocable pc_raw pickle_id init_state
                  [Callback pc_a] [Callback pc_a] pc_b Hd)).
Defined.

(** A concrete instance of the decay evaluator: one kind of obstacle, a
    person, and a constant metric. *)
Definition unit_person (_ : unit) : bool := true.
Definition unit_bbox (_ : unit) : unit := tt.
Definition const_gpr (_ _ : list unit) (_ : Q) : Q * Q := (1, 1).

(** The scenario of the spec: [max_latency = 100], keys 0, 50, 120, 260. *)
Definition decay_inputs : list (Z * list unit) :=
  [(0%Z, [tt]); (50%Z, [tt]); (120%Z, [tt]); (260%Z, [tt])].

(** C6: with a non-negative [decay_max_latency] and non-decreasing keys,
    after every message every retained entry is within [max_latency] of the
    latest key and the deque stays sorted; since it is sorted, evicting
    from the front removes exactly the entries that violate the bound. *)
Theorem C6_window_latency_bound {Obstacle BBox : Type}
    (is_person : Obstacle -> bool) (bounding_box : Obstacle -> BBox)
    (gpr : list BBox -> list BBox -> Q -> Q * Q) (L : Z)
    (inputs : list (Z * list Obstacle)) :
  (0 <= L)%Z -> Sorted Z.le (map fst inputs) ->
  let w := fst (Decay.run is_person bounding_box gpr L [] inputs) in
  let cur := last (map fst inputs) 0%Z in
  Forall (fun e => (cur - fst e <= L)%Z) w
  /\ Sorted Z.le (map fst w)
  /\ (forall k, (cur <= k)%Z ->
        Decay.evict L k w = filter (fun e => Z.leb (k - fst e) L) w).
Proof.
  intros HL Hs w cur.
  assert (Hinv : window_inv L cur w).
  { destruct inputs as [|[k0 obs0] inputs'].
    - split; constructor.
    - apply Sorted_StronglySorted in Hs; [|intros a b c; apply Z.le_trans].
      assert (Hc : Forall (fun k => (k0 <= k)%Z) (map fst ((k0, obs0) :: inputs'))).
      { simpl. inversion Hs; subst. constructor; [lia|assumption]. }
      pose proof (run_inv Obstacle BBox is_person bounding_box gpr L
                    ((k0, obs0) :: inputs') k0 [] HL Hs Hc) as H.
      assert (H0 : window_inv L k0 ([] : Decay.Window BBox)) by (split; constructor).
      specialize (H H0).
      subst cur w. change (window_inv L (last (k0 :: map fst inputs') 0%Z)
        (fst (Decay.run is_person bounding_box gpr L [] ((k0, obs0) :: inputs')))).
      rewrite last_cons_default.
      change (window_inv L (last (k0 :: map fst inputs') k0)
        (fst (Decay.run is_person bounding_box gpr L [] ((k0, obs0) :: inputs')))) in H.
      rewrite last_cons_default in H. exact H. }
  destruct Hinv as [Hss Hf].
  split; [|split].
  - apply Forall_map in Hf. eapply Forall_impl; [|exact Hf]. simpl. intros e He. lia.
  - apply StronglySorted_Sorted. exact Hss.
  - intros k _. apply evict_filter. exact Hss.
Qed.

Lemma C6_window_latency_bound_witness :
  (0 <= 100)%Z /\ Sorted Z.le (map fst decay_inputs)
  /\ Forall (fun e => (260 - fst e <= 100)%Z)
       (fst (Decay.run unit_person unit_bbox const_gpr 100 [] decay_inputs))
  /\ fst (Decay.run unit_person unit_bbox const_gpr 100 [] decay_inputs) = [(260%Z, [tt])].
Proof.
  assert (HL : (0 <= 100)%Z) by lia.
  assert (Hs : Sorted Z.le (map fst decay_inputs)).
  { simpl. repeat constructor; lia. }
  split; [exact HL|]. split; [exact Hs|]. split.
  - exact (proj1 (C6_window_latency_bound unit_person unit_bbox const_gpr 100
                    decay_inputs HL Hs)).
  - vm_compute. reflexivity.
Defined.

(** C7: [on_data] on key [k] first evicts a front prefix of over-age
    entries, then sends, for each remaining entry in order with at least one
    non-empty box set, one [(k - age_key, average precision over the
    ascending thresholds)] message, and finally appends [(k, bboxes)] at the
    tail; the new entry is not among the compared ones. *)
Theorem C7_observe_order {Obstacle BBox : Type}
    (is_person : Obstacle -> bool) (bounding_box : Obstacle -> BBox)
    (gpr : list BBox -> list BBox -> Q -> Q * Q) (L : Z)
    (w : Decay.Window BBox) (k : Z) (obs : list Obstacle) :
  let bboxes := map bounding_box (filter is_person obs) in
  let w1 := Decay.evict L k w in
  (exists pre, w = pre ++ w1 /\ Forall (fun e => (L < k - fst e)%Z) pre)
  /\ Decay.on_data is_person bounding_box gpr L w (TsCoords [k]) obs
     = Ok (w1 ++ [(k, bboxes)],
           map (fun e => ((k - fst e)%Z,
                          py_sum (map (fun iou => fst (gpr bboxes (snd e) iou))
                                      Decay.iou_thresholds) / inject_Z 9))
               (filter (fun e => (0 <? length bboxes)%nat || (0 <? length (snd e))%nat)
                       w1))
  /\ StronglySorted Qlt Decay.iou_thresholds.
Proof.
  intros bboxes w1. split; [|split].
  - apply evict_suffix.
  - simpl. rewrite Decay.select_person_bboxes_spec, compare_loop_spec.
    subst bboxes w1.
    reflexivity.
  - apply iou_thresholds_sorted.
Qed.

(** C10: only the bounding boxes of person obstacles matter: removing the
    non-person obstacles from the input changes nothing (window and sent
    messages), and every buffered entry holds exactly the person boxes of
    the message with its key. *)
Theorem C10_only_person_bboxes {Obstacle BBox : Type}
    (is_person : Obstacle -> bool) (bounding_box : Obstacle -> BBox)
    (gpr : list BBox -> list BBox -> Q -> Q * Q) (L : Z)
    (w0 : Decay.Window BBox) (inputs : list (Z * list Obstacle)) :
  (forall w t obs,
     Decay.on_data is_person bounding_box gpr L w t obs
     = Decay.on_data is_person bounding_box gpr L w t (filter is_person obs))
  /\ Decay.run is_person bounding_box gpr L w0 inputs
     = Decay.run is_person bounding_box gpr L w0
         (map (fun '(k, obs) => (k, filter is_person obs)) inputs)
  /\ (forall e, In e (fst (Decay.run is_person bounding_box gpr L [] inputs)) ->
        exists obs, In (fst e, obs) inputs
                    /\ snd e = map bounding_box (filter is_person obs)).
Proof.
  split; [|split].
  - intros w t obs. symmetry. apply on_data_filter.
  - symmetry. apply run_filter.
  - apply run_entries; [intros x Hx; exact Hx|intros e []].
Qed.

Lemma C10_only_person_bboxes_witness :
  In (260%Z, [tt]) (fst (Decay.run unit_person unit_bbox const_gpr 100 [] decay_inputs))
  /\ exists obs, In (260%Z, obs) decay_inputs /\ [tt] = map unit_bbox (filter unit_person obs).
Proof.
  assert (Hin : In (260%Z, [tt])
                  (fst (Decay.run unit_person unit_bbox const_gpr 100 [] decay_inputs)))
    by (vm_compute; left; reflexivity).
  split; [exact Hin|].
  exact (proj2 (proj2 (C10_only_person_bboxes unit_person unit_bbox const_gpr 100 []
                         decay_inputs)) (260%Z, [tt]) Hin).
Defined.

(** *** The trajectory scorer *)

Definition pt2 (a b : Q) : Prediction.Vector2D := Prediction.Build_Vector2D a b.
Definition origin2 : Prediction.Vector2D := pt2 0 0.

Lemma Forall2_snoc_inv {A B} (R : A -> B -> Prop) l1 l2 a b :
  Forall2 R (l1 ++ [a]) (l2 ++ [b]) -> R a b.
Proof.
  intros H. apply Forall2_app_inv_l in H as [l1' [l2' [_ [Hab He]]]].
  inversion Hab as [|? b' ? ? Hr Hnil]; subst. inversion Hnil; subst.
  apply app_inj_tail in He as [_ ->]. exact Hr.
Qed.

(** C1: on equal-length non-empty trajectories the scorer succeeds; MSD is
    the mean of the squared Euclidean distances of the aligned pairs, ADE
    the mean of their Manhattan distances and FDE the Manhattan distance of
    the last pair; under a constant offset [(dx, dy)] this gives
    [dx^2 + dy^2], [|dx| + |dy|] and [|dx| + |dy|]. *)
Theorem C1_trajectory_scores (pt gt : list Prediction.Vector2D) :
  length pt = length gt -> pt <> [] ->
  let n := inject_Z (Z.of_nat (length pt)) in
  exists msd ade fde,
    Prediction.trajectory_metrics pt gt = Ok (msd, ade, fde)
    /\ msd == py_sum (map pair_l2 (combine pt gt)) / n
    /\ ade == py_sum (map pair_l1 (combine pt gt)) / n
    /\ fde == Prediction.l1_distance (last pt origin2) (last gt origin2)
    /\ (forall dx dy, Forall2 (offset dx dy) pt gt ->
          msd == dx * dx + dy * dy
          /\ ade == Qabs dx + Qabs dy
          /\ fde == Qabs dx + Qabs dy).
Proof.
  intros Hl Hne n.
  destruct (exists_last Hne) as [pt' [p Ept]].
  assert (Hgne : gt <> []) by (intros ->; subst pt; rewrite length_app in Hl; simpl in Hl; lia).
  destruct (exists_last Hgne) as [gt' [g Egt]].
  assert (Hlen : length pt = S (length pt'))
    by (subst pt; rewrite length_app; simpl; lia).
  destruct (metric_loop_sum (length pt) pt gt 0 0 eq_refl (eq_sym Hl))
    as [q1 [q2 [Hloop [H1 H2]]]].
  exists (q1 / n), (q2 / n), (Prediction.l1_distance p g).
  assert (Hnz : ~ n == 0) by (apply nat_Q_nonzero; lia).
  split; [|split; [|split; [|split]]].
  - unfold Prediction.trajectory_metrics. rewrite Hloop. cbn [bind fst snd].
    rewrite Hlen. cbn [Prediction.py_div]. rewrite <- Hlen.
    subst pt gt. rewrite !py_neg_index_last. reflexivity.
  - rewrite H1, Qplus_0_l. reflexivity.
  - rewrite H2, Qplus_0_l. reflexivity.
  - subst pt gt. rewrite !last_last. reflexivity.
  - intros dx dy Hoff.
    assert (Hc : length (combine pt gt) = length pt)
      by (rewrite length_combine; lia).
    pose proof (py_sum_const _ _ (Forall2_combine _ pair_l2 _ pt gt Hoff
                  (fun a b H => offset_l2 dx dy a b H))) as S2.
    pose proof (py_sum_const _ _ (Forall2_combine _ pair_l1 _ pt gt Hoff
                  (fun a b H => offset_l1 dx dy a b H))) as S1.
    rewrite length_map, Hc in S1, S2. fold n in S1, S2.
    split; [|split].
    + rewrite H1, S2. field. exact Hnz.
    + rewrite H2, S1. field. exact Hnz.
    + subst pt gt. apply offset_l1. eapply Forall2_snoc_inv. exact Hoff.
Qed.

Lemma C1_trajectory_scores_witness :
  let pt := [pt2 1 2; pt2 3 4] in
  let gt := [pt2 0 0; pt2 2 2] in
  length pt = length gt /\ pt <> [] /\ Forall2 (offset 1 2) pt gt
  /\ exists msd ade fde,
       Prediction.trajectory_metrics pt gt = Ok (msd, ade, fde)
       /\ msd == 5 /\ ade == 3 /\ fde == 3.
Proof.
  intros pt gt.
  assert (Hl : length pt = length gt) by reflexivity.
  assert (Hn : pt <> []) by discriminate.
  assert (Ho : Forall2 (offset 1 2) pt gt).
  { repeat constructor; unfold offset; simpl; reflexivity. }
  split; [exact Hl|]. split; [exact Hn|]. split; [exact Ho|].
  destruct (C1_trajectory_scores pt gt Hl Hn) as [msd [ade [fde [Hok [_ [_ [_ Hoff]]]]]]].
  destruct (Hoff 1 2 Ho) as [Hm [Ha Hf]].
  exists msd, ade, fde. split; [exact Hok|].
  split; [rewrite Hm; reflexivity|]. split; [rewrite Ha; reflexivity|].
  rewrite Hf; reflexivity.
Defined.

(** C4 (counterexample): a ground trajectory longer than the predicted one
    raises nothing; only its last [len(predicted)] points are scored. *)
Lemma C4_longer_ground_scored :
  match Prediction.trajectory_metrics [pt2 0 0] [pt2 5 5; pt2 0 0] with
  | Ok (msd, ade, fde) => msd == 0 /\ ade == 0 /\ fde == 0
  | Err _ => False
  end.
Proof. vm_compute. split; [reflexivity|split; reflexivity]. Qed.

(** C4 (amended): an empty predicted trajectory raises [ZeroDivisionError];
    a non-empty one with a shorter ground trajectory raises [IndexError];
    otherwise the scorer compares the predicted trajectory with the last
    [len(predicted)] ground points, exactly as on that suffix. *)
Theorem C4_trajectory_lengths (pt gt : list Prediction.Vector2D) :
  (pt = [] -> Prediction.trajectory_metrics pt gt = Err ZeroDivisionError)
  /\ (pt <> [] -> (length gt < length pt)%nat ->
        Prediction.trajectory_metrics pt gt = Err IndexError)
  /\ ((length pt <= length gt)%nat ->
        Prediction.trajectory_metrics pt gt
        = Prediction.trajectory_metrics pt (skipn (length gt - length pt) gt)).
Proof.
  split; [|split].
  - intros ->. reflexivity.
  - intros Hne Hlt. unfold Prediction.trajectory_metrics.
    rewrite (metric_loop_fail pt gt _ _ (S (length gt))); [reflexivity| |lia].
    apply in_seq. lia.
  - intros Hle. destruct pt as [|p pt'] eqn:Ept; [reflexivity|].
    rewrite <- Ept in *.
    assert (Hix : forall i, (1 <= i <= length pt)%nat ->
              Prediction.py_neg_index gt i
              = Prediction.py_neg_index (skipn (length gt - length pt) gt) i).
    { intros i Hi. rewrite <- (firstn_skipn (length gt - length pt) gt) at 1.
      apply py_neg_index_prefix. rewrite length_skipn. lia. }
    assert (Hpos : (1 <= length pt)%nat) by (subst pt; simpl; lia).
    unfold Prediction.trajectory_metrics.
    rewrite (metric_loop_ext pt gt (skipn (length gt - length pt) gt))
      by (intros i Hi; apply Hix; apply in_seq in Hi; lia).
    rewrite (Hix 1%nat) by lia. reflexivity.
Qed.

Lemma C4_trajectory_lengths_witness :
  [pt2 0 0; pt2 1 1] <> [] /\ (length [pt2 0 0] < length [pt2 0 0; pt2 1 1])%nat
  /\ Prediction.trajectory_metrics [pt2 0 0; pt2 1 1] [pt2 0 0] = Err IndexError
  /\ Prediction.trajectory_metrics [pt2 0 0] [pt2 5 5; pt2 0 0]
     = Prediction.trajectory_metrics [pt2 0 0] [pt2 0 0].
Proof.
  assert (Hne : [pt2 0 0; pt2 1 1] <> []) by discriminate.
  assert (Hlt : (length [pt2 0 0] < length [pt2 0 0; pt2 1 1])%nat) by (simpl; lia).
  assert (Hle : (length [pt2 0 0] <= length [pt2 5 5; pt2 0 0])%nat) by (simpl; lia).
  split; [exact Hne|]. split; [exact Hlt|]. split.
  - exact (proj1 (proj2 (C4_trajectory_lengths [pt2 0 0; pt2 1 1] [pt2 0 0])) Hne Hlt).
  - exact (proj2 (proj2 (C4_trajectory_lengths [pt2 0 0] [pt2 5 5; pt2 0 0])) Hle).
Defined.

(** *** [_calculate_metrics]: classification *)

(** C9: an obstacle that is neither vehicle nor person makes
    [_calculate_metrics] raise (it is never skipped); when its id is in the
    ground dict the raised error is the [ValueError] of the label check;
    and on success every obstacle was a vehicle or a person and is counted
    in exactly one of the two classes (vehicle first, as the [if/elif]). *)
Theorem C9_unknown_label_raises {Label : Type} (is_vehicle is_person : Label -> bool)
    (ground : Prediction.GroundDict)
    (preds : list (Prediction.ObstaclePrediction Label)) :
  (forall op, In op preds ->
     is_vehicle (Prediction.op_label op) = false ->
     is_person (Prediction.op_label op) = false ->
     exists e, Prediction.calculate_metrics is_vehicle is_person ground preds = Err e)
  /\ (forall m op t,
        is_vehicle (Prediction.op_label op) = false ->
        is_person (Prediction.op_label op) = false ->
        Prediction.dict_get (Prediction.op_id op) ground = Ok t ->
        Prediction.score_obstacle is_vehicle is_person ground m op = Err ValueError)
  /\ (forall r, Prediction.calculate_metrics is_vehicle is_person ground preds = Ok r ->
        Forall (EvalFacts.classified Label is_vehicle is_person) preds
        /\ Prediction.vehicle_cnt (fst r)
           = length (filter (fun op => is_vehicle (Prediction.op_label op)) preds)
        /\ Prediction.person_cnt (fst r)
           = length (filter (fun op => negb (is_vehicle (Prediction.op_label op))
                                       && is_person (Prediction.op_label op)) preds)
        /\ (Prediction.vehicle_cnt (fst r) + Prediction.person_cnt (fst r))%nat
           = length preds).
Proof.
  split; [|split].
  - intros op Hin Hv Hp. unfold Prediction.calculate_metrics.
    destruct (EvalFacts.score_obstacles_unclassified Label is_vehicle is_person ground
                preds Prediction.metrics0 op Hin Hv Hp) as [e He].
    rewrite He. exists e. reflexivity.
  - intros m op t Hv Hp Hg.
    rewrite EvalFacts.score_obstacle_unclassified by assumption. rewrite Hg. reflexivity.
  - intros r H. unfold Prediction.calculate_metrics in H.
    destruct (Prediction.score_obstacles is_vehicle is_person ground Prediction.metrics0 preds)
      as [m|e] eqn:E; simpl in H; [|discriminate].
    inversion H; subst. simpl.
    destruct (EvalFacts.score_obstacles_counts Label is_vehicle is_person ground preds _ _ E)
      as [Hf [Hv Hp]].
    simpl in Hv, Hp. split; [exact Hf|]. split; [exact Hv|]. split; [exact Hp|].
    rewrite Hv, Hp. apply EvalFacts.classified_counts. exact Hf.
Qed.

Definition label_is_vehicle (l : Z) : bool := Z.eqb l 10.
Definition label_is_person (l : Z) : bool := Z.eqb l 4.
Definition unlabelled_op : Prediction.ObstaclePrediction Z :=
  Prediction.Build_ObstaclePrediction 7%Z 3%Z [].
Definition ground7 : Prediction.GroundDict :=
  [(7%Z, Prediction.Build_ObstacleTrajectory 7%Z [])].

Lemma C9_unknown_label_raises_witness :
  In unlabelled_op [unlabelled_op]
  /\ (exists e, Prediction.calculate_metrics label_is_vehicle label_is_person ground7
                  [unlabelled_op] = Err e)
  /\ Prediction.score_obstacle label_is_vehicle label_is_person ground7
       Prediction.metrics0 unlabelled_op = Err ValueError.
Proof.
  assert (Hin : In unlabelled_op [unlabelled_op]) by (left; reflexivity).
  assert (Hv : label_is_vehicle (Prediction.op_label unlabelled_op) = false) by reflexivity.
  assert (Hp : label_is_person (Prediction.op_label unlabelled_op) = false) by reflexivity.
  assert (Hg : Prediction.dict_get (Prediction.op_id unlabelled_op) ground7
               = Ok (Prediction.Build_ObstacleTrajectory 7%Z [])) by reflexivity.
  split; [exact Hin|]. split.
  - exact (proj1 (C9_unknown_label_raises label_is_vehicle label_is_person ground7
                    [unlabelled_op]) unlabelled_op Hin Hv Hp).
  - exact (proj1 (proj2 (C9_unknown_label_raises label_is_vehicle label_is_person ground7
                           [unlabelled_op])) Prediction.metrics0 unlabelled_op _ Hv Hp Hg).
Defined.

(** *** The evaluator's warm-up *)

Definition unit_label_vehicle (_ : unit) : bool := true.
Definition unit_label_person (_ : unit) : bool := false.
Definition unit_p2w (_ : unit) (o : Prediction.ObstaclePrediction unit)
  : Prediction.ObstaclePrediction unit := o.
Definition unit_t2w (_ : unit) (o : Prediction.ObstacleTrajectory)
  : Prediction.ObstacleTrajectory := o.

(** One watermark round: a pose, an empty tracking message, an empty
    prediction batch, then a non-top watermark at [t]. *)
Definition round (t : Z) : list (Prediction.EvalOp unit unit) :=
  [Prediction.OpData (Prediction.DPose tt); Prediction.OpData (Prediction.DTracking []);
   Prediction.OpData (Prediction.DPrediction []); Prediction.OpWatermark (TsCoords [t])].

Definition unit_eval_run (w : nat) (ops : list (Prediction.EvalOp unit unit)) :=
  Prediction.eval_run unit_label_vehicle unit_label_person unit_p2w unit_t2w w
    Prediction.eval_init ops.

(** C2 (counterexample): with [W = 1], one processed watermark gives no
    scoring pass, not [max(0, 1 - 1 + 1) = 1]: the check
    [len(self._predictions) == W] runs before the batch is appended. *)
Lemma C2_first_watermark_not_scored :
  let outs := snd (unit_eval_run 1 (round 1%Z)) in
  Prediction.no_raised outs = true
  /\ Prediction.nontop_watermarks (round 1%Z) = 1%nat
  /\ Prediction.count_scored outs = 0%nat
  /\ Prediction.count_scored outs <> Nat.max 0 (1 - 1 + 1).
Proof. vm_compute. repeat split. discriminate. Qed.

(** C2 (amended): for [W >= 1], over any run from the initial state whose
    non-top watermarks are all processed without an exception, the buffer
    holds [min(n, W)] batches after [n] such watermarks and the number of
    scoring passes is [max(0, n - W)]. *)
Theorem C2_scoring_passes {Label : Type} (is_vehicle is_person : Label -> bool)
    {Pose : Type}
    (p2w : Pose -> Prediction.ObstaclePrediction Label -> Prediction.ObstaclePrediction Label)
    (t2w : Pose -> Prediction.ObstacleTrajectory -> Prediction.ObstacleTrajectory)
    (W : nat) (ops : list (Prediction.EvalOp Label Pose)) :
  (1 <= W)%nat ->
  let r := Prediction.eval_run is_vehicle is_person p2w t2w W Prediction.eval_init ops in
  Prediction.no_raised (snd r) = true ->
  Prediction.count_scored (snd r) = (Prediction.nontop_watermarks ops - W)%nat
  /\ length (Prediction.predictions (fst r))
     = Nat.min (Prediction.nontop_watermarks ops) W.
Proof.
  intros HW r Hnr.
  destruct (EvalFacts.eval_run_count Label is_vehicle is_person Pose p2w t2w W ops
              Prediction.eval_init HW (Nat.le_0_l W) Hnr) as [Hc Hl].
  fold r in Hc, Hl. simpl in Hc, Hl. split; lia.
Qed.

Lemma C2_scoring_passes_witness :
  (1 <= 2)%nat
  /\ Prediction.no_raised (snd (unit_eval_run 2 (round 1%Z ++ round 2%Z ++ round 3%Z))) = true
  /\ Prediction.count_scored (snd (unit_eval_run 2 (round 1%Z ++ round 2%Z ++ round 3%Z)))
     = (Prediction.nontop_watermarks (round 1%Z ++ round 2%Z ++ round 3%Z) - 2)%nat
  /\ Prediction.nontop_watermarks (round 1%Z ++ round 2%Z ++ round 3%Z) = 3%nat.
Proof.
  assert (HW : (1 <= 2)%nat) by lia.
  assert (Hnr : Prediction.no_raised
                  (snd (unit_eval_run 2 (round 1%Z ++ round 2%Z ++ round 3%Z))) = true)
    by (vm_compute; reflexivity).
  split; [exact HW|]. split; [exact Hnr|]. split.
  - exact (proj1 (C2_scoring_passes unit_label_vehicle unit_label_person unit_p2w unit_t2w 2
                    (round 1%Z ++ round 2%Z ++ round 3%Z) HW Hnr)).
  - reflexivity.
Defined.

End Claims.

(** * Further properties of the modelled code *)

(** ** The LiDAR driver *)

Module LidarExtras.
Import Lidar LidarFacts.

(** *** Python's [int()] on the capture time *)





(** *** [_pickled_messages] as a dict *)

Lemma In_assign {V} k k' (v p : V) d :
  In (k, p) (TsDict.assign k' v d) -> In (k, p) d \/ (k = k' /\ p = v).
Proof.
  induction d as [|[k0 v0] d IH]; simpl.
  - intros [H|[]]. inversion H; subst. right. split; reflexivity.
  - destruct (ts_eqb k' k0) eqn:E.
    + apply ts_eqb_eq in E. subst k0. intros [H|H].
      * inversion H; subst. right. split; reflexivity.
      * left. right. exact H.
    + intros [H|H]; [left; left; exact H|].
      destruct (IH H) as [H'|H']; [left; right; exact H'|right; exact H'].
Qed.

Lemma In_delete {V} k x (d : TsDict.t V) : In x (TsDict.delete k d) -> In x d.
Proof. unfold TsDict.delete. intros H. apply filter_In in H. apply H. Qed.

Lemma lookup_In {V} k (v : V) d : TsDict.lookup k d = Some v -> In (k, v) d.
Proof.
  induction d as [|[k0 v0] d IH]; simpl; [discriminate|].
  destruct (ts_eqb k k0) eqn:E.
  - apply ts_eqb_eq in E. subst k0. intros H. inversion H; subst. left. reflexivity.
  - intros H. right. apply IH. exact H.
Qed.

Lemma lookup_assign_ne {V} k k' (v : V) d :
  k <> k' -> TsDict.lookup k (TsDict.assign k' v d) = TsDict.lookup k d.
Proof.
  intros Hne. induction d as [|[k0 v0] d IH]; simpl.
  - destruct (ts_eqb k k') eqn:E; [apply ts_eqb_eq in E; contradiction|reflexivity].
  - destruct (ts_eqb k' k0) eqn:E'; simpl.
    + apply ts_eqb_eq in E'. subst k0.
      destruct (ts_eqb k k') eqn:E; [apply ts_eqb_eq in E; contradiction|reflexivity].
    + destruct (ts_eqb k k0); [reflexivity|exact IH].
Qed.

Lemma lookup_delete_ne {V} k k' (d : TsDict.t V) :
  k <> k' -> TsDict.lookup k (TsDict.delete k' d) = TsDict.lookup k d.
Proof.
  intros Hne. induction d as [|[k0 v0] d IH]; simpl; [reflexivity|].
  destruct (ts_eqb k' k0) eqn:E'; simpl.
  - apply ts_eqb_eq in E'. subst k0.
    destruct (ts_eqb k k') eqn:E; [apply ts_eqb_eq in E; contradiction|exact IH].
  - destruct (ts_eqb k k0); [reflexivity|exact IH].
Qed.

Lemma length_delete {V} k (d : TsDict.t V) :
  (length (TsDict.delete k d) <= length d)%nat.
Proof.
  unfold TsDict.delete. induction d as [|x d IH]; simpl; [lia|].
  destruct (negb (ts_eqb k (fst x))); simpl; lia.
Qed.

Section Facts.
Variable PointCloud Pickled : Type.
Variable from_pc : SimulatorPC -> PointCloud.
Variable pickle : PointCloud -> Pickled.

Local Abbreviation step := (step from_pc pickle).
Local Abbreviation run := (run from_pc pickle).

Lemma lidar_run_cons st op ops :
  run st (op :: ops)
  = (fst (run (fst (step st op)) ops), snd (step st op) ++ snd (run (fst (step st op)) ops)).
Proof.
  simpl. destruct (step st op) as [s1 o1]. simpl.
  destruct (run s1 ops) as [s2 o2] eqn:E. reflexivity.
Qed.

(** Every snapshot in the cache comes from a received, non-empty point
    cloud with that key. *)
Definition cache_sound (all : list Op) (st : LidarState Pickled) : Prop :=
  forall k p, In (k, p) (pickled_messages st) ->
    exists pc, In (Callback pc) all /\ pc_key pc = k /\ raw_data pc <> []
               /\ p = pickle (from_pc pc).

Definition outs_sound (all : list Op) (outs : list (Out PointCloud Pickled)) : Prop :=
  (forall t p, In (LeftSendPickled t p) outs ->
     exists pc, In (Callback pc) all /\ pc_key pc = t /\ raw_data pc <> []
                /\ p = pickle (from_pc pc))
  /\ (forall t d, In (LeftMessage t d) outs ->
     exists pc, In (Callback pc) all /\ pc_key pc = t /\ raw_data pc <> []
                /\ d = from_pc pc).

Lemma step_sound all st op :
  In op all -> cache_sound all st ->
  cache_sound all (fst (step st op)) /\ outs_sound all (snd (step st op)).
Proof.
  intros Hin Hc. destruct op as [pc|[|c]]; simpl.
  - unfold process_point_clouds.
    destruct (raw_data pc) as [|b bs] eqn:Er; simpl.
    + split; [exact Hc|]. split; intros ? ? [H|[]]; discriminate.
    + assert (Hne : raw_data pc <> []) by (rewrite Er; discriminate).
      destruct (release_data st); simpl.
      * split; [exact Hc|]. split.
        -- intros t p [H|[H|[]]]; discriminate.
        -- intros t d [H|[H|[]]]; [|discriminate]. inversion H; subst.
           exists pc. repeat split; auto.
      * split.
        -- intros k p H. apply In_assign in H as [H|[-> ->]]; [exact (Hc k p H)|].
           exists pc. repeat split; auto.
        -- split; intros ? ? [H|[]]; discriminate.
  - split; [exact Hc|]. split; intros ? ? [].
  - destruct (TsDict.lookup (TsCoords c) (pickled_messages st)) as [p|] eqn:El; simpl.
    + split.
      * intros k p' H. apply In_delete in H. exact (Hc k p' H).
      * split.
        -- intros t p' [H|[H|[]]]; [|discriminate]. inversion H; subst.
           apply lookup_In in El. exact (Hc _ _ El).
        -- intros t d [H|[H|[]]]; discriminate.
    + split; [exact Hc|]. split; intros ? ? [H|[]]; discriminate.
Qed.

Lemma run_sound all ops : forall st,
  incl ops all -> cache_sound all st ->
  cache_sound all (fst (run st ops)) /\ outs_sound all (snd (run st ops)).
Proof.
  induction ops as [|op ops IH]; intros st Hincl Hc.
  - simpl. split; [exact Hc|]. split; intros ? ? [].
  - rewrite lidar_run_cons. cbn [fst snd].
    destruct (step_sound all st op (Hincl op (or_introl eq_refl)) Hc) as [Hc1 [Ho1 Ho1']].
    destruct (IH (fst (step st op)) (fun x H => Hincl x (or_intror H)) Hc1)
      as [Hc2 [Ho2 Ho2']].
    split; [exact Hc2|]. split.
    + intros t p H. apply in_app_or in H as [H|H]; [apply Ho1|apply Ho2]; exact H.
    + intros t d H. apply in_app_or in H as [H|H]; [apply Ho1'|apply Ho2']; exact H.
Qed.

(** An operation that does not mention key [k]. *)
Definition avoids (k : Timestamp) (op : Op) : Prop :=
  match op with
  | Callback pc => pc_key pc <> k
  | Watermark t => t <> k
  end.

Lemma step_avoids k st op :
  avoids k op ->
  TsDict.lookup k (pickled_messages (fst (step st op))) = TsDict.lookup k (pickled_messages st).
Proof.
  destruct op as [pc|[|c]]; simpl; intros Hk.
  - unfold process_point_clouds. destruct (raw_data pc); [reflexivity|].
    destruct (release_data st); simpl; [reflexivity|].
    apply lookup_assign_ne. intros E. apply Hk. symmetry. exact E.
  - reflexivity.
  - destruct (TsDict.lookup (TsCoords c) (pickled_messages st)); simpl; [|reflexivity].
    apply lookup_delete_ne. intros E. apply Hk. symmetry. exact E.
Qed.

Lemma step_released st op :
  release_data st = true ->
  (length (pickled_messages (fst (step st op))) <= length (pickled_messages st))%nat
  /\ (forall t, ~ In (RightWatermark t) (snd (step st op))).
Proof.
  intros Hr. destruct op as [pc|[|c]]; simpl.
  - unfold process_point_clouds. destruct (raw_data pc); simpl.
    + split; [lia|]. intros t [H|[]]; discriminate.
    + rewrite Hr. simpl. split; [lia|]. intros t [H|[H|[]]]; discriminate.
  - split; [lia|]. intros t [].
  - destruct (TsDict.lookup (TsCoords c) (pickled_messages st)); simpl.
    + split; [apply length_delete|]. intros t [H|[H|[]]]; discriminate.
    + split; [lia|]. intros t [H|[]]; discriminate.
Qed.

(** X2: the left stream never carries a point cloud, sent directly or
    released from the cache, for a timestamp at which the driver received
    no non-empty point cloud: every payload is the conversion (pickled when
    released) of a received point cloud with that key. *)
Theorem X2_left_data_received (ops : list Op) :
  let outs := snd (run init_state ops) in
  (forall t p, In (LeftSendPickled t p) outs ->
     exists pc, In (Callback pc) ops /\ pc_key pc = t /\ raw_data pc <> []
                /\ p = pickle (from_pc pc))
  /\ (forall t d, In (LeftMessage t d) outs ->
     exists pc, In (Callback pc) ops /\ pc_key pc = t /\ raw_data pc <> []
                /\ d = from_pc pc).
Proof.
  intros outs. apply (run_sound ops ops init_state (fun x H => H)).
  intros k p [].
Qed.

(** X3: the snapshot stored under key [k] is only changed by a point cloud
    with key [k] or by the watermark of [k]: a sequence of callbacks and
    watermarks for other keys (the top watermark included) leaves it as it
    was. *)
Theorem X3_snapshot_untouched (k : Timestamp) (st : LidarState Pickled) (ops : list Op) :
  Forall (avoids k) ops ->
  TsDict.lookup k (pickled_messages (fst (run st ops)))
  = TsDict.lookup k (pickled_messages st).
Proof.
  revert st. induction ops as [|op ops IH]; intros st Hf; [reflexivity|].
  inversion Hf as [|? ? Hop Hops]; subst.
  rewrite lidar_run_cons. cbn [fst]. rewrite IH by exact Hops. apply step_avoids. exact Hop.
Qed.

(** X4: once data is released, the cache never grows (the remaining
    snapshots can still be released by their watermarks) and nothing more
    is sent on the right stream. *)
Theorem X4_released_no_caching (st : LidarState Pickled) (ops : list Op) :
  release_data st = true ->
  (length (pickled_messages (fst (run st ops))) <= length (pickled_messages st))%nat
  /\ (forall t, ~ In (RightWatermark t) (snd (run st ops))).
Proof.
  revert st. induction ops as [|op ops IH]; intros st Hr.
  - simpl. split; [lia|]. intros t [].
  - rewrite lidar_run_cons. cbn [fst snd].
    destruct (step_released st op Hr) as [Hl1 Ho1].
    destruct (IH (fst (step st op)) (step_keeps_release _ _ from_pc pickle st op Hr))
      as [Hl2 Ho2].
    split; [lia|]. intros t H. apply in_app_or in H as [H|H]; [apply (Ho1 t)|apply (Ho2 t)];
      exact H.
Qed.

End Facts.


Definition pc_at (t : Q) : SimulatorPC := {| pc_timestamp := t; raw_data := [0%Z] |}.
Definition raw_pc (pc : SimulatorPC) : list Z := raw_data pc.
Definition pickle_raw (d : list Z) : list Z := d.


Lemma X2_left_data_received_witness :
  let ops := [Callback (pc_at (5 # 1000)); Watermark (TsCoords [5%Z])] in
  In (LeftSendPickled (PointCloud:=list Z) (TsCoords [5%Z]) [0%Z])
     (snd (run raw_pc pickle_raw init_state ops))
  /\ exists pc, In (Callback pc) ops /\ pc_key pc = TsCoords [5%Z] /\ raw_data pc <> []
                /\ [0%Z] = pickle_raw (raw_pc pc).
Proof.
  intros ops.
  assert (Hin : In (LeftSendPickled (PointCloud:=list Z) (TsCoords [5%Z]) [0%Z])
                   (snd (run raw_pc pickle_raw init_state ops))).
  { vm_compute. right. left. reflexivity. }
  split; [exact Hin|].
  exact (proj1 (X2_left_data_received _ _ raw_pc pickle_raw ops) _ _ Hin).
Defined.

Lemma X3_snapshot_untouched_witness :
  let st := fst (run raw_pc pickle_raw init_state [Callback (pc_at (5 # 1000))]) in
  let ops := [Callback (pc_at (7 # 1000)); Watermark (TsCoords [7%Z]); Watermark TsTop] in
  Forall (avoids (TsCoords [5%Z])) ops
  /\ TsDict.lookup (TsCoords [5%Z]) (pickled_messages (fst (run raw_pc pickle_raw st ops)))
     = Some [0%Z].
Proof.
  intros st ops.
  assert (Hf : Forall (avoids (TsCoords [5%Z])) ops).
  { repeat constructor; vm_compute; discriminate. }
  split; [exact Hf|].
  rewrite (X3_snapshot_untouched _ _ raw_pc pickle_raw _ st ops Hf). vm_compute. reflexivity.
Defined.

Lemma X4_released_no_caching_witness :
  let st := fst (run raw_pc pickle_raw init_state
                   [Callback (pc_at (5 # 1000)); Watermark TsTop]) in
  release_data st = true
  /\ (length (pickled_messages (fst (run raw_pc pickle_raw st
        [Callback (pc_at (7 # 1000)); Watermark (TsCoords [5%Z])]))) <= 1)%nat.
Proof.
  intros st.
  assert (Hr : release_data st = true) by (vm_compute; reflexivity).
  split; [exact Hr|].
  pose proof (proj1 (X4_released_no_caching _ _ raw_pc pickle_raw st
                       [Callback (pc_at (7 # 1000)); Watermark (TsCoords [5%Z])] Hr)) as H.
  assert (Hl : length (pickled_messages st) = 1%nat) by (vm_compute; reflexivity).
  rewrite Hl in H. exact H.
Defined.

End LidarExtras.

(** ** The detection-decay evaluator *)

Module DecayExtras.
Import Decay DecayFacts.

Lemma fold_Qplus_acc (l : list Q) : forall a, fold_left Qplus l a == a + py_sum l.
Proof.
  unfold py_sum. induction l as [|x l IH]; intros a; simpl; [ring|].
  rewrite (IH (a + x)), (IH (0 + x)). ring.
Qed.

Lemma py_sum_cons x l : py_sum (x :: l) == x + py_sum l.
Proof. unfold py_sum at 1. simpl. rewrite fold_Qplus_acc. ring. Qed.

Lemma py_sum_bounds (l : list Q) :
  Forall (fun x => 0 <= x <= 1) l ->
  0 <= py_sum l /\ py_sum l <= inject_Z (Z.of_nat (length l)).
Proof.
  induction l as [|x l IH]; intros H.
  - split; unfold py_sum; simpl; discriminate.
  - inversion H as [|? ? [Hx0 Hx1] Hl]; subst. destruct (IH Hl) as [H0 H1].
    rewrite py_sum_cons. split.
    + apply (Qle_trans _ (0 + 0)); [discriminate|]. apply Qplus_le_compat; assumption.
    + change (length (x :: l)) with (S (length l)).
      rewrite Nat2Z.inj_succ, <- Z.add_1_l, inject_Z_plus.
      apply Qplus_le_compat; assumption.
Qed.

Section Facts.
Variable Obstacle BBox : Type.
Variable is_person : Obstacle -> bool.
Variable bounding_box : Obstacle -> BBox.
Variable gpr : list BBox -> list BBox -> Q -> Q * Q.
Variable L : Z.

Local Abbreviation evict := (evict (BBox:=BBox) L).
Local Abbreviation run := (run is_person bounding_box gpr L).

Lemma decay_run_cons (w : Window BBox) k obs inputs :
  run w ((k, obs) :: inputs)
  = let bboxes := select_person_bboxes is_person bounding_box obs in
    let w1 := evict k w in
    (fst (run (w1 ++ [(k, bboxes)]) inputs),
     compare_loop gpr k bboxes w1 ++ snd (run (w1 ++ [(k, bboxes)]) inputs)).
Proof.
  simpl. destruct (run _ inputs) as [w2 o2]. reflexivity.
Qed.

Lemma compare_loop_latency c k bb (w : Window BBox) :
  (c <= k)%Z -> window_inv L c w ->
  Forall (fun m => (0 <= fst m <= L)%Z) (compare_loop gpr k bb (evict k w)).
Proof.
  intros Hck [Hs Hf]. rewrite compare_loop_spec.
  pose proof (evict_within _ L k w Hs) as Hw.
  apply Forall_forall. intros m Hm. apply in_map_iff in Hm as [e [<- He]].
  apply filter_In in He as [He _]. simpl.
  assert (Hin : In (fst e) (map fst (evict k w))) by (apply in_map; exact He).
  pose proof (proj1 (Forall_forall _ _) Hw _ Hin) as H1.
  assert (Hin' : In (fst e) (map fst w)) by (apply in_map; eapply (evict_incl _ L); exact He).
  pose proof (proj1 (Forall_forall _ _) Hf _ Hin') as H2. simpl in *. lia.
Qed.

Lemma run_latency inputs : forall c (w : Window BBox),
  (0 <= L)%Z -> StronglySorted Z.le (map fst inputs) ->
  Forall (fun k => c <= k)%Z (map fst inputs) -> window_inv L c w ->
  Forall (fun m => (0 <= fst m <= L)%Z) (snd (run w inputs)).
Proof.
  induction inputs as [|[k obs] inputs IH]; intros c w HL Hs Hc Hw; [constructor|].
  inversion Hs as [|? ? Hs' Hk]; subst. inversion Hc as [|? ? Hck _]; subst.
  pose proof (on_data_inv _ _ is_person bounding_box gpr L c k w obs HL Hck Hw) as Hstep.
  simpl in Hstep. rewrite decay_run_cons. cbn zeta. cbn [snd]. apply Forall_app. split.
  - eapply compare_loop_latency; eassumption.
  - eapply IH; eassumption.
Qed.

Lemma compare_loop_empty k (w : Window BBox) :
  Forall (fun e => snd e = []) w -> compare_loop gpr k [] w = [].
Proof.
  induction w as [|[a b] w IH]; intros H; simpl; [reflexivity|].
  inversion H as [|? ? Hb Hw]; subst. simpl in Hb. subst b. simpl. apply IH. exact Hw.
Qed.

Lemma Forall_evict (P : Z * list BBox -> Prop) k (w : Window BBox) :
  Forall P w -> Forall P (evict k w).
Proof.
  intros H. apply Forall_forall. intros e He.
  exact (proj1 (Forall_forall _ _) H e (evict_incl _ L k w e He)).
Qed.

Lemma select_no_person (obs : list Obstacle) :
  Forall (fun o => is_person o = false) obs ->
  select_person_bboxes is_person bounding_box obs = [].
Proof.
  induction obs as [|o obs IH]; intros H; simpl; [reflexivity|].
  inversion H as [|? ? Ho Hobs]; subst. rewrite Ho. apply IH. exact Hobs.
Qed.

Lemma run_silent inputs : forall (w : Window BBox),
  Forall (fun e => snd e = []) w ->
  Forall (fun i => Forall (fun o => is_person o = false) (snd i)) inputs ->
  snd (run w inputs) = [].
Proof.
  induction inputs as [|[k obs] inputs IH]; intros w Hw Hi; [reflexivity|].
  inversion Hi as [|? ? Hobs Hrest]; subst. simpl in Hobs.
  rewrite decay_run_cons. cbn zeta. cbn [snd].
  rewrite (select_no_person obs Hobs).
  rewrite compare_loop_empty by (apply Forall_evict; exact Hw).
  apply IH; [|exact Hrest].
  apply Forall_app. split; [apply Forall_evict; exact Hw|]. repeat constructor.
Qed.

Lemma avg_precision_bounds bb old :
  (forall a b iou, 0 <= fst (gpr a b iou) <= 1) ->
  0 <= avg_precision gpr bb old <= 1.
Proof.
  intros Hg. unfold avg_precision. rewrite length_map.
  assert (Hf : Forall (fun x => 0 <= x <= 1)
                 (map (fun iou => fst (gpr bb old iou)) iou_thresholds)).
  { apply Forall_forall. intros x Hx. apply in_map_iff in Hx as [iou [<- _]]. apply Hg. }
  destruct (py_sum_bounds _ Hf) as [H0 H1]. rewrite length_map in H1.
  change (length iou_thresholds) with 9%nat in *. split.
  - apply Qle_shift_div_l; [reflexivity|]. rewrite Qmult_0_l. exact H0.
  - apply Qle_shift_div_r; [reflexivity|]. rewrite Qmult_1_l. exact H1.
Qed.

Lemma run_precision inputs : forall (w : Window BBox),
  (forall a b iou, 0 <= fst (gpr a b iou) <= 1) ->
  Forall (fun m => 0 <= snd m <= 1) (snd (run w inputs)).
Proof.
  induction inputs as [|[k obs] inputs IH]; intros w Hg; [constructor|].
  rewrite decay_run_cons. cbn zeta. cbn [snd]. apply Forall_app. split; [|apply IH; exact Hg].
  rewrite compare_loop_spec. apply Forall_forall. intros m Hm.
  apply in_map_iff in Hm as [e [<- _]]. simpl. apply avg_precision_bounds. exact Hg.
Qed.

(** X5: on messages with non-decreasing game times and a non-negative
    [decay_max_latency], every latency the operator sends lies between 0 and
    [decay_max_latency]. *)
Theorem X5_sent_latency_bounds (inputs : list (Z * list Obstacle)) :
  (0 <= L)%Z -> StronglySorted Z.le (map fst inputs) ->
  Forall (fun m => (0 <= fst m <= L)%Z) (snd (run [] inputs)).
Proof.
  intros HL Hs. destruct inputs as [|[k0 obs0] inputs]; [constructor|].
  apply (run_latency _ k0 [] HL Hs).
  - simpl. constructor; [lia|]. simpl in Hs. inversion Hs as [|? ? _ Hk]; subst.
    exact Hk.
  - split; constructor.
Qed.

(** X6: when no obstacle of any message is a person, the operator sends
    nothing at all (each entry is compared only when one of the two box
    lists is non-empty). *)
Theorem X6_silent_without_persons (inputs : list (Z * list Obstacle)) :
  Forall (fun i => Forall (fun o => is_person o = false) (snd i)) inputs ->
  snd (run [] inputs) = [].
Proof. intros H. apply run_silent; [constructor|exact H]. Qed.

(** X7: when [get_precision_recall_at_iou] returns precisions in [0, 1],
    every average precision the operator sends lies in [0, 1]: it is the
    mean over the nine IoU thresholds. *)
Theorem X7_sent_precision_bounds (w : Window BBox) (inputs : list (Z * list Obstacle)) :
  (forall a b iou, 0 <= fst (gpr a b iou) <= 1) ->
  Forall (fun m => 0 <= snd m <= 1) (snd (run w inputs)).
Proof. intros Hg. apply run_precision. exact Hg. Qed.

End Facts.

Definition person_flag (b : bool) : bool := b.
Definition box_of (b : bool) : unit := tt.
Definition half_gpr (_ _ : list unit) (_ : Q) : Q * Q := (1 # 2, 0).

Definition decay_msgs : list (Z * list bool) :=
  [(0%Z, [true]); (50%Z, [false]); (120%Z, [true; false])].

Lemma X5_sent_latency_bounds_witness :
  (0 <= 100)%Z /\ StronglySorted Z.le (map fst decay_msgs)
  /\ Forall (fun m => (0 <= fst m <= 100)%Z)
       (snd (Decay.run person_flag box_of half_gpr 100 [] decay_msgs))
  /\ map fst (snd (Decay.run person_flag box_of half_gpr 100 [] decay_msgs))
     = [50%Z; 70%Z].
Proof.
  assert (HL : (0 <= 100)%Z) by lia.
  assert (Hs : StronglySorted Z.le (map fst decay_msgs)).
  { simpl. repeat constructor; lia. }
  split; [exact HL|]. split; [exact Hs|]. split.
  - exact (X5_sent_latency_bounds _ _ person_flag box_of half_gpr 100 decay_msgs HL Hs).
  - vm_compute. reflexivity.
Defined.

Lemma X6_silent_without_persons_witness :
  Forall (fun i => Forall (fun o => person_flag o = false) (snd i))
    [(0%Z, [false]); (10%Z, [false; false])]
  /\ snd (Decay.run person_flag box_of half_gpr 100 []
            [(0%Z, [false]); (10%Z, [false; false])]) = [].
Proof.
  assert (H : Forall (fun i => Forall (fun o => person_flag o = false) (snd i))
                [(0%Z, [false]); (10%Z, [false; false])]) by (repeat constructor).
  split; [exact H|].
  exact (X6_silent_without_persons _ _ person_flag box_of half_gpr 100 _ H).
Defined.

Lemma X7_sent_precision_bounds_witness :
  (forall a b iou, 0 <= fst (half_gpr a b iou) <= 1)
  /\ Forall (fun m => 0 <= snd m <= 1)
       (snd (Decay.run person_flag box_of half_gpr 100 [] decay_msgs)).
Proof.
  assert (Hg : forall a b iou, 0 <= fst (half_gpr a b iou) <= 1).
  { intros a b iou. simpl. split; discriminate. }
  split; [exact Hg|].
  exact (X7_sent_precision_bounds _ _ person_flag box_of half_gpr 100 [] decay_msgs Hg).
Defined.

End DecayExtras.

(** ** The prediction evaluator *)

Module PredictionExtras.
Import Prediction EvalFacts.

(** *** List lemmas *)

Lemma skipn_cons_firstn {A} (l : list A) j x r :
  skipn j l = x :: r ->
  firstn (S j) l = firstn j l ++ [x] /\ skipn (S j) l = r /\ (S j <= length l)%nat.
Proof.
  revert j. induction l as [|a l IH]; intros j H.
  - destruct j; discriminate.
  - destruct j as [|j].
    + simpl in H |- *. inversion H; subst. split; [reflexivity|]. split; [reflexivity|lia].
    + cbn [skipn] in H. destruct (IH j H) as [H1 [H2 H3]].
      change (firstn (S (S j)) (a :: l)) with (a :: firstn (S j) l).
      change (skipn (S (S j)) (a :: l)) with (skipn (S j) l).
      rewrite H1. split; [reflexivity|]. split; [exact H2|simpl; lia].
Qed.

Lemma skipn_app_le {A} (l l' : list A) j :
  (j <= length l)%nat -> skipn j (l ++ l') = skipn j l ++ l'.
Proof.
  intros H. rewrite skipn_app. replace (j - length l)%nat with 0%nat by lia. reflexivity.
Qed.

Lemma firstn_app_le {A} (l l' : list A) j :
  (j <= length l)%nat -> firstn j (l ++ l') = firstn j l.
Proof.
  intros H. rewrite firstn_app. replace (j - length l)%nat with 0%nat by lia.
  simpl. apply app_nil_r.
Qed.

Lemma combine_app_eq {A B} (a a' : list A) (b b' : list B) :
  length a = length b -> combine (a ++ a') (b ++ b') = combine a b ++ combine a' b'.
Proof.
  revert b. induction a as [|x a IH]; intros b H; destruct b as [|y b]; simpl in *;
    try discriminate; [reflexivity|].
  rewrite IH by lia. reflexivity.
Qed.

Lemma combine_app_r {A B} (a : list A) (b c : list B) :
  (length a <= length b)%nat -> combine a (b ++ c) = combine a b.
Proof.
  revert b. induction a as [|x a IH]; intros b H; destruct b as [|y b]; simpl in *;
    try reflexivity; [lia|].
  rewrite IH by lia. reflexivity.
Qed.

Lemma combine_snoc_skipn {A B} (a : list A) (b : list B) x y ys :
  skipn (length a) b = y :: ys -> combine (a ++ [x]) b = combine a b ++ [(x, y)].
Proof.
  revert b. induction a as [|z a IH]; intros b H; destruct b as [|w b]; simpl in *;
    try discriminate.
  - inversion H; subst. reflexivity.
  - rewrite (IH b H). reflexivity.
Qed.

Lemma deque_append_lt {A} maxlen (q : list A) b :
  (length q < maxlen)%nat -> deque_append maxlen q b = q ++ [b].
Proof.
  intros H. destruct maxlen as [|m]; [lia|]. unfold deque_append.
  replace (Nat.ltb (length q) (S m)) with true by (symmetry; apply Nat.ltb_lt; exact H).
  reflexivity.
Qed.

Lemma deque_append_full {A} maxlen (q : list A) b :
  (1 <= maxlen)%nat -> length q = maxlen -> deque_append maxlen q b = tl q ++ [b].
Proof.
  intros H1 H. destruct maxlen as [|m]; [lia|]. unfold deque_append.
  replace (Nat.ltb (length q) (S m)) with false by (symmetry; apply Nat.ltb_ge; lia).
  reflexivity.
Qed.




Section Facts.
Variable Label : Type.
Variable is_vehicle is_person : Label -> bool.
Variable Pose : Type.
Variable p2w : Pose -> ObstaclePrediction Label -> ObstaclePrediction Label.
Variable t2w : Pose -> ObstacleTrajectory -> ObstacleTrajectory.
Variable W : nat.

Local Abbreviation step := (eval_step is_vehicle is_person p2w t2w W).
Local Abbreviation run := (eval_run is_vehicle is_person p2w t2w W).
Local Abbreviation Op := (EvalOp Label Pose).

(** *** The ground-truth dict *)

Lemma build_ground_acc (pose : Pose) tracking : forall acc k,
  dict_get k (fold_left (fun d ot => let ot' := t2w pose ot in (ot_id ot', ot') :: d)
                tracking acc)
  = match rev (filter (fun ot => Z.eqb (ot_id ot) k) (map (t2w pose) tracking)) with
    | [] => dict_get k acc
    | ot :: _ => Ok ot
    end.
Proof.
  induction tracking as [|ot tracking IH]; intros acc k; simpl; [reflexivity|].
  rewrite IH. simpl. rewrite (Z.eqb_sym (ot_id (t2w pose ot)) k).
  destruct (Z.eqb k (ot_id (t2w pose ot))); simpl.
  - destruct (rev (filter _ (map (t2w pose) tracking))); reflexivity.
  - reflexivity.
Qed.

(** X9: in the ground-truth dict built from a tracking message, id [k]
    maps to the last trajectory of the message (converted to world
    coordinates) that has id [k]; a later trajectory with the same id
    replaces an earlier one, and an id absent from the message gives
    [KeyError]. *)
Theorem X9_ground_last_wins (pose : Pose) (tracking : list ObstacleTrajectory) (k : Z) :
  dict_get k (build_ground Pose t2w pose tracking)
  = match rev (filter (fun ot => Z.eqb (ot_id ot) k) (map (t2w pose) tracking)) with
    | [] => Err KeyError
    | ot :: _ => Ok ot
    end.
Proof. unfold build_ground. rewrite build_ground_acc. reflexivity. Qed.

(** *** Inputs and outputs of a run *)

Fixpoint poses_of (ops : list Op) : list Pose :=
  match ops with
  | [] => []
  | OpData (DPose p) :: ops' => p :: poses_of ops'
  | _ :: ops' => poses_of ops'
  end.

Fixpoint trackings_of (ops : list Op) : list (list ObstacleTrajectory) :=
  match ops with
  | [] => []
  | OpData (DTracking t) :: ops' => t :: trackings_of ops'
  | _ :: ops' => trackings_of ops'
  end.

Fixpoint batches_of (ops : list Op) : list (Batch Label) :=
  match ops with
  | [] => []
  | OpData (DPrediction b) :: ops' => b :: batches_of ops'
  | _ :: ops' => batches_of ops'
  end.

Fixpoint scored_payloads (outs : list EvalOut) : list (Metrics * list Row) :=
  match outs with
  | [] => []
  | Scored _ m rows :: outs' => (m, rows) :: scored_payloads outs'
  | EvRaised _ :: outs' => scored_payloads outs'
  end.

Lemma poses_of_app l1 l2 : poses_of (l1 ++ l2) = poses_of l1 ++ poses_of l2.
Proof.
  induction l1 as [|[[]|] l1 IH]; simpl; rewrite ?IH; reflexivity.
Qed.
Lemma trackings_of_app l1 l2 : trackings_of (l1 ++ l2) = trackings_of l1 ++ trackings_of l2.
Proof.
  induction l1 as [|[[]|] l1 IH]; simpl; rewrite ?IH; reflexivity.
Qed.
Lemma batches_of_app l1 l2 : batches_of (l1 ++ l2) = batches_of l1 ++ batches_of l2.
Proof.
  induction l1 as [|[[]|] l1 IH]; simpl; rewrite ?IH; reflexivity.
Qed.
Lemma scored_payloads_app o1 o2 :
  scored_payloads (o1 ++ o2) = scored_payloads o1 ++ scored_payloads o2.
Proof.
  induction o1 as [|[] o1 IH]; simpl; rewrite ?IH; reflexivity.
Qed.
Lemma nontop_app (l1 l2 : list Op) :
  nontop_watermarks (l1 ++ l2) = (nontop_watermarks l1 + nontop_watermarks l2)%nat.
Proof. unfold nontop_watermarks. rewrite filter_app, length_app. reflexivity. Qed.

Lemma eval_run_cons st op ops :
  run st (op :: ops)
  = (fst (run (fst (step st op)) ops), snd (step st op) ++ snd (run (fst (step st op)) ops)).
Proof.
  simpl. destruct (step st op) as [s1 o1]. simpl.
  destruct (run s1 ops) as [s2 o2]. reflexivity.
Qed.

Lemma eval_run_snoc st l op :
  run st (l ++ [op])
  = (fst (step (fst (run st l)) op), snd (run st l) ++ snd (step (fst (run st l)) op)).
Proof.
  revert st. induction l as [|op' l IH]; intros st.
  - simpl. destruct (step st op) as [s1 o1]. simpl. rewrite app_nil_r. reflexivity.
  - rewrite <- app_comm_cons, !eval_run_cons, IH. simpl. rewrite app_assoc. reflexivity.
Qed.

(** *** The three input queues *)

Lemma step_queues (st : EvalState Label Pose) op :
  no_raised (snd (step st op)) = true ->
  (length (pose_msgs (fst (step st op))) + nontop_watermarks [op]
   = length (pose_msgs st) + length (poses_of [op]))%nat
  /\ (length (tracking_msgs (fst (step st op))) + nontop_watermarks [op]
      = length (tracking_msgs st) + length (trackings_of [op]))%nat
  /\ (length (prediction_msgs (fst (step st op))) + nontop_watermarks [op]
      = length (prediction_msgs st) + length (batches_of [op]))%nat.
Proof.
  intros Hnr. destruct op as [[p|t|b]|[|c]]; simpl in *;
    try (unfold nontop_watermarks; simpl; rewrite ?length_app; simpl;
         repeat split; lia).
  - unfold nontop_watermarks. simpl.
    unfold on_watermark in *.
    destruct (tracking_msgs st) as [|tm tms]; [discriminate|].
    destruct (prediction_msgs st) as [|pm pms]; [discriminate|].
    destruct (pose_msgs st) as [|pose poses]; [discriminate|].
    destruct (if Nat.eqb (length (predictions st)) W then _ else _) as [outs|e];
      simpl in *; [lia|discriminate].
Qed.

(** X10: over any run of the evaluator that raises nothing, each non-top
    watermark consumes exactly one message from each of the pose, tracking
    and prediction queues, and nothing else removes one. *)
Theorem X10_queue_accounting (st : EvalState Label Pose) (ops : list Op) :
  no_raised (snd (run st ops)) = true ->
  let n := nontop_watermarks ops in
  (length (pose_msgs (fst (run st ops))) + n = length (pose_msgs st) + length (poses_of ops))%nat
  /\ (length (tracking_msgs (fst (run st ops))) + n
      = length (tracking_msgs st) + length (trackings_of ops))%nat
  /\ (length (prediction_msgs (fst (run st ops))) + n
      = length (prediction_msgs st) + length (batches_of ops))%nat.
Proof.
  revert st. induction ops as [|op ops IH]; intros st Hnr; cbv zeta in *;
    [simpl; repeat split; lia|].
  rewrite eval_run_cons in Hnr |- *. cbn [fst snd] in Hnr |- *.
  rewrite no_raised_app in Hnr. apply andb_true_iff in Hnr as [H1 H2].
  destruct (step_queues st op H1) as [A1 [B1 C1]].
  destruct (IH _ H2) as [A2 [B2 C2]].
  change (op :: ops) with ([op] ++ ops).
  rewrite nontop_app, poses_of_app, trackings_of_app, batches_of_app, !length_app.
  lia.
Qed.

(** *** A watermark that raises *)


(** *** Which batch a scoring pass scores *)

(** The pose, the tracking message and the prediction batch popped by one
    non-top watermark. *)
Local Abbreviation Round := (Pose * list ObstacleTrajectory * Batch Label)%type.

Definition rounds (j : nat) (ops : list Op) : list Round :=
  combine (combine (firstn j (poses_of ops)) (firstn j (trackings_of ops)))
    (firstn j (batches_of ops)).

(** The batch of a round converted with that round's pose. *)
Definition converted (r : Round) : Batch Label := map (p2w (fst (fst r))) (snd r).

(** The scoring pass of round [cur] against the batch of round [old]. *)
Definition scored_against (cur old : Round) : result (Metrics * list Row) :=
  calculate_metrics is_vehicle is_person
    (build_ground Pose t2w (fst (fst cur)) (snd (fst cur))) (converted old).

Definition inv_at (j : nat) (pre : list Op) (st : EvalState Label Pose)
    (outs : list EvalOut) : Prop :=
  (j <= length (poses_of pre))%nat /\ (j <= length (trackings_of pre))%nat
  /\ (j <= length (batches_of pre))%nat
  /\ pose_msgs st = skipn j (poses_of pre)
  /\ tracking_msgs st = skipn j (trackings_of pre)
  /\ prediction_msgs st = skipn j (batches_of pre)
  /\ predictions st = map converted (skipn (j - W) (rounds j pre))
  /\ map Ok (scored_payloads outs)
     = map (fun p => scored_against (fst p) (snd p))
         (combine (skipn W (rounds j pre)) (rounds j pre)).

Lemma length_rounds j pre :
  (j <= length (poses_of pre))%nat -> (j <= length (trackings_of pre))%nat ->
  (j <= length (batches_of pre))%nat -> length (rounds j pre) = j.
Proof.
  intros H1 H2 H3. unfold rounds. rewrite !length_combine, !length_firstn. lia.
Qed.

Lemma rounds_data j pre d :
  (j <= length (poses_of pre))%nat -> (j <= length (trackings_of pre))%nat ->
  (j <= length (batches_of pre))%nat ->
  rounds j (pre ++ [OpData d]) = rounds j pre.
Proof.
  intros H1 H2 H3. unfold rounds.
  rewrite poses_of_app, trackings_of_app, batches_of_app, !firstn_app_le by assumption.
  reflexivity.
Qed.

Lemma on_data_queues (st : EvalState Label Pose) d :
  pose_msgs (on_data Label Pose st d) = pose_msgs st ++ poses_of [OpData d]
  /\ tracking_msgs (on_data Label Pose st d) = tracking_msgs st ++ trackings_of [OpData d]
  /\ prediction_msgs (on_data Label Pose st d) = prediction_msgs st ++ batches_of [OpData d]
  /\ predictions (on_data Label Pose st d) = predictions st.
Proof. destruct d; simpl; rewrite ?app_nil_r; repeat split; reflexivity. Qed.

Lemma inv_data pre st outs d :
  inv_at (nontop_watermarks pre) pre st outs ->
  inv_at (nontop_watermarks (pre ++ [OpData d])) (pre ++ [OpData d])
    (on_data Label Pose st d) (outs ++ []).
Proof.
  intros [HP [HT [HB [Ho [Ht [Hp [Hq Hs]]]]]]].
  destruct (on_data_queues st d) as [Qo [Qt [Qp Qq]]].
  unfold inv_at. rewrite nontop_app. change (nontop_watermarks [OpData d]) with 0%nat.
  rewrite Nat.add_0_r, app_nil_r.
  rewrite rounds_data by assumption.
  rewrite poses_of_app, trackings_of_app, batches_of_app, !length_app.
  repeat split; try lia.
  - rewrite Qo, Ho. symmetry. apply skipn_app_le. exact HP.
  - rewrite Qt, Ht. symmetry. apply skipn_app_le. exact HT.
  - rewrite Qp, Hp. symmetry. apply skipn_app_le. exact HB.
  - rewrite Qq. exact Hq.
  - exact Hs.
Qed.

Lemma inv_top pre st outs :
  inv_at (nontop_watermarks pre) pre st outs ->
  inv_at (nontop_watermarks (pre ++ [OpWatermark TsTop])) (pre ++ [OpWatermark TsTop])
    st (outs ++ []).
Proof.
  intros H. rewrite nontop_app. change (nontop_watermarks [OpWatermark TsTop]) with 0%nat.
  rewrite Nat.add_0_r, app_nil_r.
  unfold inv_at, rounds in *. rewrite poses_of_app, trackings_of_app, batches_of_app.
  simpl. rewrite !app_nil_r. exact H.
Qed.

Lemma inv_watermark pre st outs c :
  (1 <= W)%nat ->
  inv_at (nontop_watermarks pre) pre st outs ->
  no_raised (snd (step st (OpWatermark (TsCoords c)))) = true ->
  inv_at (nontop_watermarks (pre ++ [OpWatermark (TsCoords c)]))
    (pre ++ [OpWatermark (TsCoords c)])
    (fst (step st (OpWatermark (TsCoords c))))
    (outs ++ snd (step st (OpWatermark (TsCoords c)))).
Proof.
  intros HW [HP [HT [HB [Ho [Ht [Hp [Hq Hs]]]]]]].
  rewrite nontop_app. change (nontop_watermarks [OpWatermark (TsCoords c)]) with 1%nat.
  set (j := nontop_watermarks pre) in *.
  assert (Hpre : forall A (f : list Op -> list A),
             (forall l1 l2, f (l1 ++ l2) = f l1 ++ f l2) ->
             f [OpWatermark (TsCoords c)] = [] ->
             f (pre ++ [OpWatermark (TsCoords c)]) = f pre).
  { intros A f Hf H0. rewrite Hf, H0. apply app_nil_r. }
  assert (Rw : forall k, rounds k (pre ++ [OpWatermark (TsCoords c)]) = rounds k pre).
  { intros k. unfold rounds.
    rewrite (Hpre _ poses_of poses_of_app eq_refl),
            (Hpre _ trackings_of trackings_of_app eq_refl),
            (Hpre _ batches_of batches_of_app eq_refl). reflexivity. }
  unfold inv_at. rewrite Rw.
  rewrite (Hpre _ poses_of poses_of_app eq_refl),
          (Hpre _ trackings_of trackings_of_app eq_refl),
          (Hpre _ batches_of batches_of_app eq_refl).
  cbn [eval_step]. unfold on_watermark. rewrite Ht, Hp, Ho.
  destruct (skipn j (trackings_of pre)) as [|tm tms] eqn:ET; [simpl; discriminate|].
  destruct (skipn j (batches_of pre)) as [|pm pms] eqn:EB; [simpl; discriminate|].
  destruct (skipn j (poses_of pre)) as [|pose poses] eqn:EP; [simpl; discriminate|].
  destruct (skipn_cons_firstn _ _ _ _ ET) as [FT [ST LT]].
  destruct (skipn_cons_firstn _ _ _ _ EB) as [FB [SB LB]].
  destruct (skipn_cons_firstn _ _ _ _ EP) as [FP [SP LP]].
  assert (HR : rounds (j + 1) pre = rounds j pre ++ [(pose, tm, pm)]).
  { unfold rounds. rewrite Nat.add_1_r, FP, FT, FB.
    rewrite combine_app_eq by (rewrite !length_firstn; lia).
    rewrite combine_app_eq by (rewrite length_combine, !length_firstn; lia).
    reflexivity. }
  pose proof (length_rounds j pre HP HT HB) as LR.
  assert (Lq : length (predictions st) = Nat.min j W).
  { rewrite Hq, length_map, length_skipn, LR. lia. }
  rewrite HR. rewrite Nat.add_1_r.
  destruct (Nat.eqb (length (predictions st)) W) eqn:EW.
  - (* a scoring pass against the oldest buffered batch *)
    apply Nat.eqb_eq in EW.
    assert (HjW : (W <= j)%nat) by lia.
    destruct (skipn (j - W) (rounds j pre)) as [|y ys] eqn:EY.
    { exfalso. rewrite Hq in EW. simpl in EW. lia. }
    destruct (skipn_cons_firstn _ _ _ _ EY) as [_ [SY _]].
    rewrite Hq. simpl.
    destruct (calculate_metrics is_vehicle is_person (build_ground Pose t2w pose tm)
                (converted y)) as [r|e] eqn:EC; simpl; [|discriminate].
    intros _.
    assert (Hlen : length (converted y :: map converted ys) = W).
    { change (converted y :: map converted ys) with (map converted (y :: ys)).
      rewrite <- EY, length_map, length_skipn, LR. lia. }
    repeat split; try lia.
    + rewrite <- SP; reflexivity.
    + rewrite <- ST; reflexivity.
    + rewrite <- SB; reflexivity.
    + rewrite deque_append_full by (exact HW || exact Hlen). simpl.
      change (match W with O => S j | S l => (j - l)%nat end) with (S j - W)%nat.
      replace (S j - W)%nat with (S (j - W)) by lia.
      rewrite skipn_app_le by lia. rewrite SY, map_app. reflexivity.
    + rewrite scored_payloads_app, map_app, Hs. simpl.
      rewrite skipn_app_le by lia.
      assert (EY' : skipn (length (skipn W (rounds j pre))) (rounds j pre ++ [(pose, tm, pm)])
                    = y :: ys ++ [(pose, tm, pm)]).
      { rewrite length_skipn, LR, skipn_app_le by lia. rewrite EY. reflexivity. }
      rewrite (combine_snoc_skipn _ _ _ _ _ EY').
      rewrite combine_app_r by (rewrite length_skipn; lia).
      assert (Hsc : scored_against (pose, tm, pm) y = Ok (fst r, snd r)).
      { unfold scored_against. cbn [fst snd]. rewrite EC. destruct r. reflexivity. }
      rewrite map_app. simpl. rewrite Hsc. reflexivity.
  - (* still warming up *)
    apply Nat.eqb_neq in EW.
    assert (HjW : (j < W)%nat) by lia.
    simpl. intros _.
    repeat split; try lia.
    + rewrite <- SP; reflexivity.
    + rewrite <- ST; reflexivity.
    + rewrite <- SB; reflexivity.
    + rewrite deque_append_lt by lia. rewrite Hq.
      change (match W with O => S j | S l => (j - l)%nat end) with (S j - W)%nat.
      replace (j - W)%nat with 0%nat by lia. replace (S j - W)%nat with 0%nat by lia.
      simpl. rewrite map_app. reflexivity.
    + rewrite app_nil_r, Hs.
      rewrite (skipn_all2 (n:=W) (rounds j pre)) by lia.
      rewrite (skipn_all2 (n:=W) (rounds j pre ++ [(pose, tm, pm)]))
        by (rewrite length_app; simpl; lia).
      reflexivity.
Qed.

Lemma inv_run ops :
  (1 <= W)%nat -> no_raised (snd (run eval_init ops)) = true ->
  inv_at (nontop_watermarks ops) ops (fst (run eval_init ops)) (snd (run eval_init ops)).
Proof.
  intros HW. induction ops as [|op ops IH] using rev_ind; intros Hnr.
  - unfold inv_at, rounds. simpl. rewrite !skipn_nil. simpl.
    repeat split; (lia || reflexivity).
  - rewrite eval_run_snoc in Hnr |- *. cbn [fst snd] in Hnr |- *.
    rewrite no_raised_app in Hnr. apply andb_true_iff in Hnr as [H1 H2].
    specialize (IH H1).
    destruct op as [d|[|c]].
    + exact (inv_data ops _ _ d IH).
    + exact (inv_top ops _ _ IH).
    + exact (inv_watermark ops _ _ c HW IH H2).
Qed.

(** X12: for [W >= 1], over any run from the initial state that raises
    nothing, with [n] non-top watermarks: the i-th watermark pops the i-th
    pose, tracking message and prediction batch received; the k-th scoring
    pass, at watermark [k + W], scores the batch popped at watermark [k]
    (converted with that watermark's pose) against the tracking message of
    watermark [k + W] (converted with its own pose); and [_predictions]
    ends as the last [W] converted batches. *)
Theorem X12_scoring_alignment (ops : list Op) :
  (1 <= W)%nat -> no_raised (snd (run eval_init ops)) = true ->
  let n := nontop_watermarks ops in
  let R := rounds n ops in
  map Ok (scored_payloads (snd (run eval_init ops)))
  = map (fun p => scored_against (fst p) (snd p)) (combine (skipn W R) R)
  /\ predictions (fst (run eval_init ops)) = map converted (skipn (n - W) R)
  /\ (n <= length (poses_of ops))%nat /\ (n <= length (trackings_of ops))%nat
  /\ (n <= length (batches_of ops))%nat.
Proof.
  intros HW Hnr n R.
  destruct (inv_run ops HW Hnr) as [HP [HT [HB [_ [_ [_ [Hq Hs]]]]]]].
  split; [exact Hs|]. split; [exact Hq|]. split; [exact HP|]. split; assumption.
Qed.

(** *** Per-class sums of [_calculate_metrics] *)

(** The per-obstacle scorer as [_calculate_metrics] runs it: look up the
    ground trajectory, then score the two trajectories. *)
Definition per_obstacle (ground : GroundDict) (op : ObstaclePrediction Label)
  : result (Q * Q * Q) :=
  g <- dict_get (op_id op) ground ;;
  trajectory_metrics (map to_vector2d (op_predicted_trajectory op))
    (map to_vector2d (ot_trajectory g)).

Definition vehicle_sel (op : ObstaclePrediction Label) : bool := is_vehicle (op_label op).
Definition person_sel (op : ObstaclePrediction Label) : bool :=
  negb (is_vehicle (op_label op)) && is_person (op_label op).

Definition class_sum (sel : ObstaclePrediction Label -> bool) (f : Q * Q * Q -> Q)
    (scored : list (ObstaclePrediction Label * (Q * Q * Q))) : Q :=
  py_sum (map (fun p => f (snd p)) (filter (fun p => sel (fst p)) scored)).

Definition msd_of (s : Q * Q * Q) : Q := fst (fst s).
Definition ade_of (s : Q * Q * Q) : Q := snd (fst s).
Definition fde_of (s : Q * Q * Q) : Q := snd s.

Lemma score_obstacle_add g m op m1 :
  score_obstacle is_vehicle is_person g m op = Ok m1 ->
  exists s, per_obstacle g op = Ok s
    /\ ((vehicle_sel op = true /\ person_sel op = false
         /\ m1 = add_vehicle (incr_vehicle m) (msd_of s) (ade_of s) (fde_of s))
        \/ (vehicle_sel op = false /\ person_sel op = true
            /\ m1 = add_person (incr_person m) (msd_of s) (ade_of s) (fde_of s))).
Proof.
  unfold score_obstacle, per_obstacle, vehicle_sel, person_sel.
  destruct (dict_get (op_id op) g) as [gt|e]; simpl; [|discriminate].
  destruct (trajectory_metrics _ _) as [[[a b] f]|e] eqn:ET.
  - destruct (is_vehicle (op_label op)) eqn:Ev; simpl.
    + intros H; inversion H; subst. exists (a, b, f). split; [reflexivity|].
      left. auto.
    + destruct (is_person (op_label op)) eqn:Ep; simpl; [|discriminate].
      intros H; inversion H; subst. exists (a, b, f). split; [reflexivity|].
      right. auto.
  - destruct (is_vehicle (op_label op)); simpl; [discriminate|].
    destruct (is_person (op_label op)); simpl; discriminate.
Qed.

Lemma class_sum_cons sel f op s rest :
  class_sum sel f ((op, s) :: rest)
  == (if sel op then f s else 0) + class_sum sel f rest.
Proof.
  unfold class_sum. simpl. destruct (sel op); simpl.
  - apply DecayExtras.py_sum_cons.
  - ring.
Qed.

Lemma score_obstacles_sums g preds : forall m m',
  score_obstacles is_vehicle is_person g m preds = Ok m' ->
  exists scores, Forall2 (fun op s => per_obstacle g op = Ok s) preds scores
    /\ vehicle_msd m' == vehicle_msd m + class_sum vehicle_sel msd_of (combine preds scores)
    /\ vehicle_ade m' == vehicle_ade m + class_sum vehicle_sel ade_of (combine preds scores)
    /\ vehicle_fde m' == vehicle_fde m + class_sum vehicle_sel fde_of (combine preds scores)
    /\ person_msd m' == person_msd m + class_sum person_sel msd_of (combine preds scores)
    /\ person_ade m' == person_ade m + class_sum person_sel ade_of (combine preds scores)
    /\ person_fde m' == person_fde m + class_sum person_sel fde_of (combine preds scores).
Proof.
  induction preds as [|op preds IH]; intros m m' H; simpl in H.
  - inversion H; subst. exists []. unfold class_sum, py_sum. simpl.
    repeat split; try constructor; ring.
  - destruct (score_obstacle is_vehicle is_person g m op) as [m1|e] eqn:E;
      simpl in H; [|discriminate].
    destruct (IH m1 m' H) as [scores [Hf [A1 [A2 [A3 [A4 [A5 A6]]]]]]].
    destruct (score_obstacle_add g m op m1 E) as [s [Hs Hc]].
    exists (s :: scores). split; [constructor; assumption|].
    cbn [combine]. rewrite !class_sum_cons.
    rewrite A1, A2, A3, A4, A5, A6.
    destruct Hc as [[Hv [Hp ->]]|[Hv [Hp ->]]]; rewrite Hv, Hp; simpl;
      repeat split; ring.
Qed.

(** X13: when [_calculate_metrics] succeeds, every obstacle's ground
    trajectory was found and scored, and the vehicle (resp. person) MSD,
    ADE and FDE sums are the sums of the per-obstacle MSD, ADE and FDE over
    the obstacles classified as vehicles (resp. persons, i.e. not vehicles
    but persons). *)
Theorem X13_class_sums (ground : GroundDict) (preds : list (ObstaclePrediction Label))
    (r : Metrics * list Row) :
  calculate_metrics is_vehicle is_person ground preds = Ok r ->
  exists scores, Forall2 (fun op s => per_obstacle ground op = Ok s) preds scores
    /\ vehicle_msd (fst r) == class_sum vehicle_sel msd_of (combine preds scores)
    /\ vehicle_ade (fst r) == class_sum vehicle_sel ade_of (combine preds scores)
    /\ vehicle_fde (fst r) == class_sum vehicle_sel fde_of (combine preds scores)
    /\ person_msd (fst r) == class_sum person_sel msd_of (combine preds scores)
    /\ person_ade (fst r) == class_sum person_sel ade_of (combine preds scores)
    /\ person_fde (fst r) == class_sum person_sel fde_of (combine preds scores).
Proof.
  unfold calculate_metrics. intros H.
  destruct (score_obstacles is_vehicle is_person ground metrics0 preds) as [m|e] eqn:E;
    simpl in H; [|discriminate].
  inversion H; subst. simpl.
  destruct (score_obstacles_sums ground preds metrics0 m E)
    as [scores [Hf [A1 [A2 [A3 [A4 [A5 A6]]]]]]].
  exists scores. split; [exact Hf|]. simpl in *.
  rewrite A1, A2, A3, A4, A5, A6. repeat split; ring.
Qed.

End Facts.

(** *** A concrete evaluator *)

Definition wv (b : bool) : bool := b.
Definition wp (b : bool) : bool := negb b.
Definition wpw (_ : unit) (o : ObstaclePrediction bool) : ObstaclePrediction bool := o.
Definition wtw (_ : unit) (o : ObstacleTrajectory) : ObstacleTrajectory := o.
Definition tf (x y : Q) : Transform := {| location := {| loc_x := x; loc_y := y; loc_z := 0 |} |}.

(** Two rounds of pose, tracking, prediction and watermark; [W = 1], so the
    second watermark scores the first batch. *)
Definition w_ops : list (EvalOp bool unit) :=
  [OpData (DPose tt); OpData (DTracking [{| ot_id := 1; ot_trajectory := [tf 0 0] |}]);
   OpData (DPrediction [Build_ObstaclePrediction 1%Z true [tf 1 0]]);
   OpWatermark (TsCoords [1%Z]);
   OpData (DPose tt); OpData (DTracking [{| ot_id := 1; ot_trajectory := [tf 2 0] |}]);
   OpData (DPrediction [Build_ObstaclePrediction 1%Z true [tf 3 0]]);
   OpWatermark (TsCoords [2%Z])].

Lemma X10_queue_accounting_witness :
  no_raised (snd (eval_run wv wp wpw wtw 1 eval_init w_ops)) = true
  /\ (let n := nontop_watermarks w_ops in
      (length (pose_msgs (fst (eval_run wv wp wpw wtw 1 eval_init w_ops))) + n
       = length (pose_msgs (@eval_init bool unit)) + length (poses_of bool unit w_ops))%nat
      /\ (length (tracking_msgs (fst (eval_run wv wp wpw wtw 1 eval_init w_ops))) + n
          = length (tracking_msgs (@eval_init bool unit)) + length (trackings_of bool unit w_ops))%nat
      /\ (length (prediction_msgs (fst (eval_run wv wp wpw wtw 1 eval_init w_ops))) + n
          = length (prediction_msgs (@eval_init bool unit)) + length (batches_of bool unit w_ops))%nat).
Proof.
  assert (H : no_raised (snd (eval_run wv wp wpw wtw 1 eval_init w_ops)) = true)
    by (vm_compute; reflexivity).
  split; [exact H|].
  exact (X10_queue_accounting bool wv wp unit wpw wtw 1 eval_init w_ops H).
Defined.



Lemma X12_scoring_alignment_witness :
  (1 <= 1)%nat /\ no_raised (snd (eval_run wv wp wpw wtw 1 eval_init w_ops)) = true
  /\ length (scored_payloads (snd (eval_run wv wp wpw wtw 1 eval_init w_ops))) = 1%nat
  /\ (let n := nontop_watermarks w_ops in
      let R := rounds bool unit n w_ops in
      map Ok (scored_payloads (snd (eval_run wv wp wpw wtw 1 eval_init w_ops)))
      = map (fun p => scored_against bool wv wp unit wpw wtw (fst p) (snd p))
          (combine (skipn 1 R) R)
      /\ predictions (fst (eval_run wv wp wpw wtw 1 eval_init w_ops))
         = map (converted bool unit wpw) (skipn (n - 1) R)
      /\ (n <= length (poses_of bool unit w_ops))%nat
      /\ (n <= length (trackings_of bool unit w_ops))%nat
      /\ (n <= length (batches_of bool unit w_ops))%nat).
Proof.
  assert (H : no_raised (snd (eval_run wv wp wpw wtw 1 eval_init w_ops)) = true)
    by (vm_compute; reflexivity).
  split; [lia|]. split; [exact H|]. split; [vm_compute; reflexivity|].
  exact (X12_scoring_alignment bool wv wp unit wpw wtw 1 w_ops (le_n 1) H).
Defined.

(** A vehicle and a person, each with a one-point trajectory. *)
Definition w_ground : GroundDict :=
  build_ground unit wtw tt
    [{| ot_id := 1; ot_trajectory := [tf 2 0] |}; {| ot_id := 2; ot_trajectory := [tf 0 0] |}].
Definition w_preds : list (ObstaclePrediction bool) :=
  [Build_ObstaclePrediction 1%Z true [tf 1 0]; Build_ObstaclePrediction 2%Z false [tf 0 3]].
Definition w_result : Metrics * list Row :=
  match calculate_metrics wv wp w_ground w_preds with
  | Ok r => r
  | Err _ => (metrics0, [])
  end.

Lemma X13_class_sums_witness :
  calculate_metrics wv wp w_ground w_preds = Ok w_result
  /\ exists scores, Forall2 (fun op s => per_obstacle bool w_ground op = Ok s) w_preds scores
    /\ vehicle_msd (fst w_result)
       == class_sum bool (vehicle_sel bool wv) (msd_of) (combine w_preds scores)
    /\ vehicle_ade (fst w_result)
       == class_sum bool (vehicle_sel bool wv) (ade_of) (combine w_preds scores)
    /\ vehicle_fde (fst w_result)
       == class_sum bool (vehicle_sel bool wv) (fde_of) (combine w_preds scores)
    /\ person_msd (fst w_result)
       == class_sum bool (person_sel bool wv wp) (msd_of) (combine w_preds scores)
    /\ person_ade (fst w_result)
       == class_sum bool (person_sel bool wv wp) (ade_of) (combine w_preds scores)
    /\ person_fde (fst w_result)
       == class_sum bool (person_sel bool wv wp) (fde_of) (combine w_preds scores).
Proof.
  assert (H : calculate_metrics wv wp w_ground w_preds = Ok w_result)
    by (vm_compute; reflexivity).
  split; [exact H|].
  exact (X13_class_sums bool wv wp w_ground w_preds w_result H).
Defined.

End PredictionExtras.

(** ** The camera callbacks *)

Module RunnerExtras.
Import Runner String.
Local Open Scope list_scope.

Definition stream_of {Frame} (x : Send Frame) : IngestStream :=
  match x with SendMessage s _ _ => s | SendWatermark s _ => s end.

Definition stream_eqb (a b : IngestStream) : bool :=
  match a, b with
  | RgbCamera, RgbCamera | DepthCamera, DepthCamera | SegCamera, SegCamera
  | LeftCamera, LeftCamera | RightCamera, RightCamera => true
  | _, _ => false
  end.

(** The send goes to stream [s]. *)
Definition on_stream {Frame} (s : IngestStream) (x : Send Frame) : bool :=
  stream_eqb (stream_of x) s.

Section Facts.
Variable SimImage CameraSetup Frame : Type.
Variable image_timestamp : SimImage -> Q.
Variable camera_type : CameraSetup -> String.string.
Variable camera_frame_from_simulator_frame : SimImage -> CameraSetup -> Frame.
Variable depth_frame_from_simulator_frame : SimImage -> CameraSetup -> bool -> Frame.
Variable segmented_frame_from_simulator_image : SimImage -> CameraSetup -> Frame.
Variable rgb_camera_setup depth_camera_setup seg_camera_setup : CameraSetup.
Variable left_camera_setup right_camera_setup : CameraSetup.
Variable visualize_depth_camera : bool.

Local Abbreviation out := (run_callbacks image_timestamp camera_type
  camera_frame_from_simulator_frame depth_frame_from_simulator_frame
  segmented_frame_from_simulator_image rgb_camera_setup depth_camera_setup
  seg_camera_setup left_camera_setup right_camera_setup visualize_depth_camera).
Local Abbreviation cb := (callback SimImage CameraSetup Frame image_timestamp camera_type
  camera_frame_from_simulator_frame depth_frame_from_simulator_frame
  segmented_frame_from_simulator_image rgb_camera_setup depth_camera_setup
  seg_camera_setup left_camera_setup right_camera_setup visualize_depth_camera).
Local Abbreviation key := (image_key image_timestamp).

Lemma out_cons e es : out (e :: es) = cb e ++ out es.
Proof. reflexivity. Qed.

Lemma in_out x es : In x (out es) <-> exists e, In e es /\ In x (cb e).
Proof.
  unfold run_callbacks. rewrite in_flat_map. reflexivity.
Qed.

(** Each callback sends nothing, one frame message, or (left and right)
    a frame message followed by a watermark with the same timestamp. *)
Lemma callback_shape e :
  cb e = []
  \/ (exists s t d, cb e = [SendMessage s t d])
  \/ (exists s t d, cb e = [SendMessage s t d; SendWatermark s t]
                    /\ (s = LeftCamera \/ s = RightCamera)).
Proof.
  destruct e as [img|img|img|img|img]; simpl;
    unfold process_rgb_images, process_depth_images, process_seg_images,
      process_left_images, process_right_images;
    match goal with |- context [if ?b then _ else _] => destruct b end;
    eauto 10.
Qed.

Lemma depth_sent_type es :
  existsb (on_stream DepthCamera) (out es) = true ->
  String.eqb (camera_type depth_camera_setup) "sensor.camera.depth"%string = true.
Proof.
  intros H. apply existsb_exists in H as [x [Hx Hon]].
  apply in_out in Hx as [e [_ Hx]].
  destruct e as [img|img|img|img|img]; simpl in Hx;
    unfold process_rgb_images, process_depth_images, process_seg_images,
      process_left_images, process_right_images in Hx;
    match type of Hx with context [if ?b then _ else _] => destruct b eqn:Eb end;
    simpl in Hx; try contradiction;
    repeat (destruct Hx as [Hx|Hx]; [subst x; simpl in Hon; discriminate || reflexivity|]);
    contradiction.
Qed.

Lemma seg_silent es :
  String.eqb (camera_type depth_camera_setup)
    "sensor.camera.semantic_segmentation"%string = false ->
  existsb (on_stream SegCamera) (out es) = false.
Proof.
  intros Hs. induction es as [|e es IH]; [reflexivity|].
  rewrite out_cons, existsb_app, IH, orb_false_r.
  destruct e as [img|img|img|img|img]; simpl;
    unfold process_rgb_images, process_depth_images, process_seg_images,
      process_left_images, process_right_images; rewrite ?Hs;
    try (match goal with |- context [if ?b then _ else _] => destruct b end);
    reflexivity.
Qed.

(** X14: the segmentation callback tests the type of the depth camera
    setup, so in a configuration where any depth frame is sent, no
    segmented frame is ever sent, whatever the images delivered. *)
Theorem X14_depth_excludes_seg (es1 es2 : list (Event SimImage)) :
  existsb (on_stream DepthCamera) (out es1) = true ->
  existsb (on_stream SegCamera) (out es2) = false.
Proof.
  intros H. apply seg_silent.
  apply depth_sent_type in H. apply String.eqb_eq in H. rewrite H. reflexivity.
Qed.

Lemma wm_block b (o : list (Send Frame)) :
  (b = [] \/ (exists s t d, b = [SendMessage s t d])
   \/ (exists s t d, b = [SendMessage s t d; SendWatermark s t]
                     /\ (s = LeftCamera \/ s = RightCamera))) ->
  (forall i s t, nth_error o i = Some (SendWatermark s t) ->
     (s = LeftCamera \/ s = RightCamera)
     /\ exists i' d, i = S i' /\ nth_error o i' = Some (SendMessage s t d)) ->
  forall i s t, nth_error (b ++ o) i = Some (SendWatermark s t) ->
     (s = LeftCamera \/ s = RightCamera)
     /\ exists i' d, i = S i' /\ nth_error (b ++ o) i' = Some (SendMessage s t d).
Proof.
  intros [->|[[s0 [t0 [d0 ->]]]|[s0 [t0 [d0 [-> Hs0]]]]]] Ho i s t H.
  - exact (Ho i s t H).
  - destruct i as [|i]; simpl in H; [discriminate|].
    destruct (Ho i s t H) as [Hs [i' [d [-> Hi']]]].
    split; [exact Hs|]. exists (S i'), d. split; [reflexivity|exact Hi'].
  - destruct i as [|[|i]]; simpl in H; [discriminate| |].
    + inversion H; subst. split; [exact Hs0|]. exists 0%nat, d0. split; reflexivity.
    + destruct (Ho i s t H) as [Hs [i' [d [-> Hi']]]].
      split; [exact Hs|]. exists (S (S i')), d. split; [reflexivity|exact Hi'].
Qed.

(** X15: watermarks are sent only on the left and right camera streams,
    and each one directly follows a frame message on the same stream with
    the same timestamp. *)
Theorem X15_watermark_after_frame (es : list (Event SimImage)) (i : nat)
    (s : IngestStream) (t : Timestamp) :
  nth_error (out es) i = Some (SendWatermark s t) ->
  (s = LeftCamera \/ s = RightCamera)
  /\ exists i' d, i = S i' /\ nth_error (out es) i' = Some (SendMessage s t d).
Proof.
  revert i s t. induction es as [|e es IH]; intros i s t H.
  - destruct i; discriminate.
  - rewrite out_cons in H |- *.
    exact (wm_block (cb e) (out es) (callback_shape e) IH i s t H).
Qed.

(** X16: a left (resp. right) camera frame is sent only when the rgb
    camera setup has type ['sensor.camera.rgb'], for a left (resp. right)
    image, stamped with that image's time in milliseconds and built with the
    left (resp. right) camera setup. *)
Theorem X16_stereo_frames (es : list (Event SimImage)) (t : Timestamp) (d : Frame) :
  (In (SendMessage LeftCamera t d) (out es) ->
     String.eqb (camera_type rgb_camera_setup) "sensor.camera.rgb"%string = true
     /\ exists img, In (LeftImage img) es /\ t = key img
        /\ d = camera_frame_from_simulator_frame img left_camera_setup)
  /\ (In (SendMessage RightCamera t d) (out es) ->
     String.eqb (camera_type rgb_camera_setup) "sensor.camera.rgb"%string = true
     /\ exists img, In (RightImage img) es /\ t = key img
        /\ d = camera_frame_from_simulator_frame img right_camera_setup).
Proof.
  split; intros Hx; apply in_out in Hx as [e [He Hx]];
    destruct e as [img|img|img|img|img]; simpl in Hx;
    unfold process_rgb_images, process_depth_images, process_seg_images,
      process_left_images, process_right_images in Hx;
    match type of Hx with context [if ?b then _ else _] => destruct b eqn:Eb end;
    simpl in Hx; try contradiction;
    repeat match goal with H : _ \/ _ |- _ => destruct H as [H|H] end;
    try contradiction; try discriminate;
    (inversion Hx; subst; split; [reflexivity || exact Eb|]; exists img; auto).
Qed.

End Facts.

(** *** A concrete rig *)

(** Images are their timestamps; setups are their type strings; a frame
    records the setup and the image it was built from. *)
Definition r_type (c : String.string) : String.string := c.
Definition r_frame (img : Q) (c : String.string) : String.string * Q := (c, img).
Definition r_depth (img : Q) (c : String.string) (_ : bool) : String.string * Q := (c, img).

Definition r_out (events : list (Event Q)) : list (Send (String.string * Q)) :=
  run_callbacks (fun q => q) r_type r_frame r_depth r_frame
    "sensor.camera.rgb"%string "sensor.camera.depth"%string
    "sensor.camera.semantic_segmentation"%string
    "sensor.camera.rgb"%string "sensor.camera.rgb"%string false events.

Definition r_events : list (Event Q) :=
  [RgbImage 1; LeftImage 1; DepthImage 1; SegImage 1; RightImage (3#2)].

Lemma X14_depth_excludes_seg_witness :
  existsb (on_stream DepthCamera) (r_out r_events) = true
  /\ existsb (on_stream SegCamera) (r_out r_events) = false.
Proof.
  assert (H : existsb (on_stream DepthCamera) (r_out r_events) = true)
    by (vm_compute; reflexivity).
  split; [exact H|].
  exact (X14_depth_excludes_seg _ _ _ (fun q => q) r_type r_frame r_depth r_frame
           "sensor.camera.rgb"%string "sensor.camera.depth"%string
           "sensor.camera.semantic_segmentation"%string
           "sensor.camera.rgb"%string "sensor.camera.rgb"%string false
           r_events r_events H).
Defined.

Lemma X15_watermark_after_frame_witness :
  nth_error (r_out r_events) 2 = Some (SendWatermark LeftCamera (TsCoords [1000%Z]))
  /\ (LeftCamera = LeftCamera \/ LeftCamera = RightCamera)
  /\ exists i' d, 2%nat = S i'
     /\ nth_error (r_out r_events) i' = Some (SendMessage LeftCamera (TsCoords [1000%Z]) d).
Proof.
  assert (H : nth_error (r_out r_events) 2
              = Some (SendWatermark LeftCamera (TsCoords [1000%Z])))
    by (vm_compute; reflexivity).
  split; [exact H|].
  exact (X15_watermark_after_frame _ _ _ (fun q => q) r_type r_frame r_depth r_frame
           "sensor.camera.rgb"%string "sensor.camera.depth"%string
           "sensor.camera.semantic_segmentation"%string
           "sensor.camera.rgb"%string "sensor.camera.rgb"%string false
           r_events 2 LeftCamera (TsCoords [1000%Z]) H).
Defined.

Lemma X16_stereo_frames_witness :
  In (SendMessage RightCamera (TsCoords [1500%Z]) ("sensor.camera.rgb"%string, 3#2))
    (r_out r_events)
  /\ String.eqb (r_type "sensor.camera.rgb"%string) "sensor.camera.rgb"%string = true
  /\ exists img, In (RightImage img) r_events
     /\ TsCoords [1500%Z] = image_key (fun q => q) img
     /\ ("sensor.camera.rgb"%string, 3#2) = r_frame img "sensor.camera.rgb"%string.
Proof.
  assert (H : In (SendMessage RightCamera (TsCoords [1500%Z]) ("sensor.camera.rgb"%string, 3#2))
                (r_out r_events))
    by (vm_compute; right; right; right; right; left; reflexivity).
  split; [exact H|].
  exact (proj2 (X16_stereo_frames _ _ _ (fun q => q) r_type r_frame r_depth r_frame
           "sensor.camera.rgb"%string "sensor.camera.depth"%string
           "sensor.camera.semantic_segmentation"%string
           "sensor.camera.rgb"%string "sensor.camera.rgb"%string false
           r_events (TsCoords [1500%Z]) ("sensor.camera.rgb"%string, 3#2)) H).
Defined.

End RunnerExtras.
